(** * tsnet: an embedded Tailscale server (tsnet/tsnet.go)

    A shallow embedding of [Server], its listener registry, the in-process
    [listener] and the inbound dispatcher [forwardTCP], followed by the
    properties of the lifecycle and dispatch core.

    Conventions of the embedding:
    - a goroutine running one method is a state transformer whose outcome is
      a return, a park ([Blocked]: the goroutine waits in the state it has
      reached, and moves on only if another goroutine changes what it waits
      for) or a panic;
    - [sync.Mutex] is the boolean [mu]: locking a held mutex parks the caller;
    - [*listener] and [chan net.Conn] values are addresses into two heaps, so
      that the pointer comparison [v == ln] of [listener.Close] is address
      equality;
    - the collaborators (operating system, engine, netstack, backend) are the
      [World]: their answers are read from it and every call they receive is
      appended to its [trace];
    - functions of Go's standard library that the file only calls are the
      members of the class [GoLib]. *)

From stdpp Require Import gmap strings list fin_maps.
From Stdlib Require Import Ascii ZArith.
From Stdlib Require DecimalString DecimalN DecimalFacts DecimalPos.

Open Scope string_scope.

(** ** Errors *)

(** Go [error] values, by the expression that builds them. *)
Inductive error : Type :=
| Errorf (format : string) (args : list string)
    (* fmt.Errorf whose verbs take no error operand *)
| Wrapf (format : string) (err : error)
    (* fmt.Errorf with %w: the result wraps err *)
| Msgf (format : string) (err : error)
    (* fmt.Errorf with %v applied to an error: text only *)
| net_ErrClosed
| external (origin : string) (detail : string).
    (* an error produced by a collaborator or by the OS *)

Inductive result (A : Type) : Type :=
| Ok (a : A)
| Err (e : error).
Arguments Ok {A} a.
Arguments Err {A} e.

(** The error classes of the specification, as the values the code builds. *)
Definition ConfigurationError : error :=
  Errorf "in-memory store is only supported for Ephemeral nodes" [].
Definition AddressParseError (e : error) : error := Wrapf "tsnet: %w" e.
Definition StartupError (e : error) : error := Wrapf "tsnet: %w" e.
Definition DuplicateListenerError (network addr : string) : error :=
  Errorf "tsnet: listener already open for %s, %s" [network; addr].
Definition ClosedListenerError : error := Wrapf "tsnet: %w" net_ErrClosed.

(** ** Library interface *)

Class GoLib : Type := {
  net_SplitHostPort : string → result (string * string);
  filepath_Base : string → string;
  filepath_Join : string → string → string;
  strings_ToLower : string → string;
  strings_TrimSuffix : string → string → string;
}.

(** [fmt.Sprint] of a [uint16]: its decimal numeral. *)
Definition uint16 : Type := N.
Definition fmt_Sprint (port : uint16) : string :=
  DecimalString.NilZero.string_of_uint (N.to_uint port).

(** [time.Duration] counts nanoseconds. *)
Definition time_Second : Z := 1000000000.

(** ** Data model *)

Record listenKey : Type := ListenKey {
  network : string;
  host : string;
  port : string;
}.

#[global] Instance listenKey_eq_dec : EqDecision listenKey.
Proof. solve_decision. Defined.

#[global] Instance listenKey_countable : Countable listenKey.
Proof.
  refine (inj_countable' (λ k, (network k, host k, port k))
                         (λ t, ListenKey t.1.1 t.1.2 t.2) _).
  by intros [].
Defined.

Definition ptr : Type := nat.
Definition Conn : Type := nat.

(** [type listener struct]; the back pointer [s] is the one server of the
    state. *)
Record listener : Type := Listener {
  key : listenKey;
  addr : string;
  conn : ptr;
}.

(** An unbuffered channel holds no element: its state is open or closed. *)
Inductive chan : Type := ChanOpen | ChanClosed.

Inductive StateStore : Type :=
| mem_Store
| FileStore (path : string)
| other_Store (name : string).

Inductive ipn_State : Type :=
| NoState | InUseOtherUser | NeedsLogin | NeedsMachineAuth
| Stopped | Starting | Running.

#[global] Instance ipn_State_eq_dec : EqDecision ipn_State.
Proof. solve_decision. Defined.

(** Directory entries as [os.Lstat] sees them. *)
Inductive fentry : Type :=
| EDir
| ENotDir (mode : string)
| EUnreadable (e : error).

(** Calls received by the collaborators, in program order. *)
Inductive event : Type :=
| EvLstat (path : string)
| EvRename (oldpath newpath : string)
| EvMkdirAll (path : string)
| EvStat (path : string)
| EvMonitorNew
| EvNewUserspaceEngine
| EvNetstackCreate
| EvNetstackStart
| EvStoreNew (path : string)
| EvNewLocalBackend (ephemeral : bool)
| EvBackendStart (hostname authKey : string)
| EvStartLoginInteractive
| EvGoPrintAuthURLLoop
| EvServeLocalAPI
| EvShutdownCancel
| EvBackendShutdown
| EvLinkMonClose
| EvLocalAPIListenerClose
| EvSend (ch : ptr) (c : Conn)
| EvConnClose (c : Conn).

#[global] Instance event_eq_dec : EqDecision event.
Proof. solve_decision. Defined.

Record World : Type := MkWorld {
  os_Executable : result string;
  os_UserConfigDir : result string;
  fs : gmap string fentry;
  os_Rename_fault : option error;
  os_MkdirAll_fault : option error;
  monitor_New_fault : option error;
  NewUserspaceEngine_fault : option error;
  GetInternals_ok : bool;
  netstack_Create_fault : option error;
  netstack_Start_fault : option error;
  store_New_fault : option error;
  NewLocalBackend_fault : option error;
  lb_Start_fault : option error;
  lb_State : ipn_State;
  env_TS_AUTHKEY : string;
  env_TSNET_FORCE_LOGIN : bool;
  trace : list event;
}.

(** [type Server struct]. Handles of collaborators carry no data of their
    own: [None] is the nil handle. [shutdownCtx] holds whether the context
    has been cancelled. *)
Record Server : Type := MkServer {
  Dir : string;
  Store : option StateStore;
  Hostname : string;
  Ephemeral : bool;
  initOnce : bool;
  initErr : option error;
  lb : option unit;
  linkMon : option unit;
  localAPIListener : option unit;
  rootPath : string;
  hostname : string;
  shutdownCtx : option bool;
  mu : bool;
  listeners : option (gmap listenKey ptr);
  dialer : option unit;
}.

Record State : Type := MkState {
  srv : Server;
  lns : gmap ptr listener;
  chans : gmap ptr chan;
  world : World;
}.

(** *** Field updates *)

Definition with_fs (v : gmap string fentry) (w : World) : World :=
  MkWorld (os_Executable w) (os_UserConfigDir w) v (os_Rename_fault w)
    (os_MkdirAll_fault w) (monitor_New_fault w) (NewUserspaceEngine_fault w)
    (GetInternals_ok w) (netstack_Create_fault w) (netstack_Start_fault w)
    (store_New_fault w) (NewLocalBackend_fault w) (lb_Start_fault w)
    (lb_State w) (env_TS_AUTHKEY w) (env_TSNET_FORCE_LOGIN w) (trace w).

Definition with_trace (v : list event) (w : World) : World :=
  MkWorld (os_Executable w) (os_UserConfigDir w) (fs w) (os_Rename_fault w)
    (os_MkdirAll_fault w) (monitor_New_fault w) (NewUserspaceEngine_fault w)
    (GetInternals_ok w) (netstack_Create_fault w) (netstack_Start_fault w)
    (store_New_fault w) (NewLocalBackend_fault w) (lb_Start_fault w)
    (lb_State w) (env_TS_AUTHKEY w) (env_TSNET_FORCE_LOGIN w) v.

Definition with_Store (v : option StateStore) (s : Server) : Server :=
  MkServer (Dir s) v (Hostname s) (Ephemeral s) (initOnce s) (initErr s)
    (lb s) (linkMon s) (localAPIListener s) (rootPath s) (hostname s)
    (shutdownCtx s) (mu s) (listeners s) (dialer s).
Definition with_initOnce (v : bool) (s : Server) : Server :=
  MkServer (Dir s) (Store s) (Hostname s) (Ephemeral s) v (initErr s)
    (lb s) (linkMon s) (localAPIListener s) (rootPath s) (hostname s)
    (shutdownCtx s) (mu s) (listeners s) (dialer s).
Definition with_initErr (v : option error) (s : Server) : Server :=
  MkServer (Dir s) (Store s) (Hostname s) (Ephemeral s) (initOnce s) v
    (lb s) (linkMon s) (localAPIListener s) (rootPath s) (hostname s)
    (shutdownCtx s) (mu s) (listeners s) (dialer s).
Definition with_lb (v : option unit) (s : Server) : Server :=
  MkServer (Dir s) (Store s) (Hostname s) (Ephemeral s) (initOnce s)
    (initErr s) v (linkMon s) (localAPIListener s) (rootPath s) (hostname s)
    (shutdownCtx s) (mu s) (listeners s) (dialer s).
Definition with_linkMon (v : option unit) (s : Server) : Server :=
  MkServer (Dir s) (Store s) (Hostname s) (Ephemeral s) (initOnce s)
    (initErr s) (lb s) v (localAPIListener s) (rootPath s) (hostname s)
    (shutdownCtx s) (mu s) (listeners s) (dialer s).
Definition with_localAPIListener (v : option unit) (s : Server) : Server :=
  MkServer (Dir s) (Store s) (Hostname s) (Ephemeral s) (initOnce s)
    (initErr s) (lb s) (linkMon s) v (rootPath s) (hostname s)
    (shutdownCtx s) (mu s) (listeners s) (dialer s).
Definition with_rootPath (v : string) (s : Server) : Server :=
  MkServer (Dir s) (Store s) (Hostname s) (Ephemeral s) (initOnce s)
    (initErr s) (lb s) (linkMon s) (localAPIListener s) v (hostname s)
    (shutdownCtx s) (mu s) (listeners s) (dialer s).
Definition with_hostname (v : string) (s : Server) : Server :=
  MkServer (Dir s) (Store s) (Hostname s) (Ephemeral s) (initOnce s)
    (initErr s) (lb s) (linkMon s) (localAPIListener s) (rootPath s) v
    (shutdownCtx s) (mu s) (listeners s) (dialer s).
Definition with_shutdownCtx (v : option bool) (s : Server) : Server :=
  MkServer (Dir s) (Store s) (Hostname s) (Ephemeral s) (initOnce s)
    (initErr s) (lb s) (linkMon s) (localAPIListener s) (rootPath s)
    (hostname s) v (mu s) (listeners s) (dialer s).
Definition with_mu (v : bool) (s : Server) : Server :=
  MkServer (Dir s) (Store s) (Hostname s) (Ephemeral s) (initOnce s)
    (initErr s) (lb s) (linkMon s) (localAPIListener s) (rootPath s)
    (hostname s) (shutdownCtx s) v (listeners s) (dialer s).
Definition with_listeners (v : option (gmap listenKey ptr)) (s : Server)
  : Server :=
  MkServer (Dir s) (Store s) (Hostname s) (Ephemeral s) (initOnce s)
    (initErr s) (lb s) (linkMon s) (localAPIListener s) (rootPath s)
    (hostname s) (shutdownCtx s) (mu s) v (dialer s).
Definition with_dialer (v : option unit) (s : Server) : Server :=
  MkServer (Dir s) (Store s) (Hostname s) (Ephemeral s) (initOnce s)
    (initErr s) (lb s) (linkMon s) (localAPIListener s) (rootPath s)
    (hostname s) (shutdownCtx s) (mu s) (listeners s) v.

Definition on_srv (f : Server → Server) (st : State) : State :=
  MkState (f (srv st)) (lns st) (chans st) (world st).
Definition on_world (f : World → World) (st : State) : State :=
  MkState (srv st) (lns st) (chans st) (f (world st)).
Definition with_lns (v : gmap ptr listener) (st : State) : State :=
  MkState (srv st) v (chans st) (world st).
Definition with_chans (v : gmap ptr chan) (st : State) : State :=
  MkState (srv st) (lns st) v (world st).

(** ** Outcomes of a goroutine *)

Inductive outcome (A : Type) : Type :=
| Ret (a : A) (st : State)
| Blocked (st : State)
| Panic (msg : string) (st : State).
Arguments Ret {A} a st.
Arguments Blocked {A} st.
Arguments Panic {A} msg st.

Definition M (A : Type) : Type := State → outcome A.

Definition ret {A} (a : A) : M A := λ st, Ret a st.

Definition bind {A B} (m : M A) (k : A → M B) : M B :=
  λ st, match m st with
        | Ret a st' => k a st'
        | Blocked st' => Blocked st'
        | Panic msg st' => Panic msg st'
        end.

Notation "x <- m ;; k" := (bind m (λ x, k))
  (at level 100, m at next level, right associativity).
Notation "m ;;; k" := (bind m (λ _, k))
  (at level 100, right associativity).

Definition get : M State := λ st, Ret st st.
Definition gets {A} (f : Server → A) : M A := λ st, Ret (f (srv st)) st.
Definition modify (f : State → State) : M unit := λ st, Ret tt (f st).
Definition panic {A} (msg : string) : M A := λ st, Panic msg st.
Definition emit (e : event) : M unit :=
  modify (on_world (λ w, with_trace (trace w ++ [e]) w)).

(** [defer f] around [body]: [f] runs when [body] returns or panics, and
    not while [body] is parked. *)
Definition defer {A} (f : M unit) (body : M A) : M A :=
  λ st, match body st with
        | Ret a st' =>
            match f st' with
            | Ret _ st'' => Ret a st''
            | Blocked st'' => Blocked st''
            | Panic msg st'' => Panic msg st''
            end
        | Blocked st' => Blocked st'
        | Panic msg st' =>
            match f st' with
            | Ret _ st'' => Panic msg st''
            | Blocked st'' => Blocked st''
            | Panic msg' st'' => Panic msg' st''
            end
        end.

(** *** sync.Mutex *)

Definition Lock : M unit :=
  λ st, if mu (srv st) then Blocked st
        else Ret tt (on_srv (with_mu true) st).

Definition Unlock : M unit :=
  λ st, if mu (srv st) then Ret tt (on_srv (with_mu false) st)
        else Panic "sync: unlock of unlocked mutex" st.

(** *** Channels *)

Definition make_chan : M ptr :=
  λ st, let c := fresh (dom (chans st)) in
        Ret c (with_chans (<[c := ChanOpen]> (chans st)) st).

Definition close_chan (c : ptr) : M unit :=
  λ st, match chans st !! c with
        | Some ChanOpen => Ret tt (with_chans (<[c := ChanClosed]> (chans st)) st)
        | Some ChanClosed => Panic "close of closed channel" st
        | None => Panic "close of nil channel" st
        end.

(** [v, ok := <-c] on an unbuffered channel. [offer] is the value a sender
    parked on [c] proposes, if there is such a sender. *)
Definition recv_chan (c : ptr) (offer : option Conn) : M (option Conn) :=
  λ st, match chans st !! c with
        | Some ChanClosed => Ret None st
        | Some ChanOpen =>
            match offer with
            | Some v => Ret (Some v) st
            | None => Blocked st
            end
        | None => Blocked st
        end.

(** *** Listener objects *)

Definition new_listener (ln : listener) : M ptr :=
  λ st, let p := fresh (dom (lns st)) in
        Ret p (with_lns (<[p := ln]> (lns st)) st).

Definition deref (p : ptr) : M listener :=
  λ st, match lns st !! p with
        | Some ln => Ret ln st
        | None => Panic "invalid memory address or nil pointer dereference" st
        end.

(** Reading a nil map yields the zero value; deleting from it does nothing. *)
Definition map_index (m : option (gmap listenKey ptr)) (k : listenKey)
  : option ptr :=
  match m with
  | Some m => m !! k
  | None => None
  end.

Definition map_delete (k : listenKey) (m : option (gmap listenKey ptr))
  : option (gmap listenKey ptr) :=
  match m with
  | Some m => Some (delete k m)
  | None => None
  end.

(** ** The listener *)

(** [func (ln *listener) Accept() (net.Conn, error)] *)
Definition listener_Accept (p : ptr) (offer : option Conn) : M (result Conn) :=
  ln <- deref p ;;
  r <- recv_chan (conn ln) offer ;;
  match r with
  | None => ret (Err (Wrapf "tsnet: %w" net_ErrClosed))
  | Some c => ret (Ok c)
  end.

(** [func (ln *listener) Close() error] *)
Definition listener_Close (p : ptr) : M (option error) :=
  ln <- deref p ;;
  Lock ;;;
  defer Unlock (
    ls <- gets listeners ;;
    (match map_index ls (key ln) with
     | Some v =>
         if decide (v = p) then
           modify (on_srv (with_listeners (map_delete (key ln) ls))) ;;;
           close_chan (conn ln)
         else ret tt
     | None => ret tt
     end) ;;;
    ret None).

(** ** Operating system *)

Record FileInfo : Type := MkFileInfo {
  IsDir : bool;
  Mode : string;
}.

Definition fs_ErrNotExist (path : string) : error :=
  external "fs.ErrNotExist" path.

Definition os_IsNotExist (err : option error) : bool :=
  match err with
  | Some (external origin _) => bool_decide (origin = "fs.ErrNotExist")
  | _ => false
  end.

Definition err_of {A} (r : result A) : option error :=
  match r with
  | Ok _ => None
  | Err e => Some e
  end.

(** The directory tree is flat: a path is absent, a directory, something
    else, or cannot be examined. Without symbolic links [os.Stat] and
    [os.Lstat] agree. *)
Definition lstat (w : World) (path : string) : result FileInfo :=
  match fs w !! path with
  | None => Err (fs_ErrNotExist path)
  | Some EDir => Ok (MkFileInfo true "d")
  | Some (ENotDir mode) => Ok (MkFileInfo false mode)
  | Some (EUnreadable e) => Err e
  end.

Definition os_Lstat (path : string) : M (result FileInfo) :=
  emit (EvLstat path) ;;;
  st <- get ;;
  ret (lstat (world st) path).

Definition os_Stat (path : string) : M (result FileInfo) :=
  emit (EvStat path) ;;;
  st <- get ;;
  ret (lstat (world st) path).

Definition os_Rename (oldpath newpath : string) : M (option error) :=
  emit (EvRename oldpath newpath) ;;;
  st <- get ;;
  match os_Rename_fault (world st) with
  | Some e => ret (Some e)
  | None =>
      match fs (world st) !! oldpath with
      | None => ret (Some (fs_ErrNotExist oldpath))
      | Some x =>
          modify (on_world (λ w,
            with_fs (<[newpath := x]> (delete oldpath (fs w))) w)) ;;;
          ret None
      end
  end.

Definition os_MkdirAll (path : string) : M (option error) :=
  emit (EvMkdirAll path) ;;;
  st <- get ;;
  match os_MkdirAll_fault (world st) with
  | Some e => ret (Some e)
  | None =>
      match fs (world st) !! path with
      | Some EDir => ret None
      | Some (ENotDir _) => ret (Some (external "mkdir" "not a directory"))
      | Some (EUnreadable e) => ret (Some e)
      | None =>
          modify (on_world (λ w, with_fs (<[path := EDir]> (fs w)) w)) ;;;
          ret None
      end
  end.

(** A call to a collaborator: recorded, then answered by the world. *)
Definition call (ev : event) (fault : World → option error)
  : M (option error) :=
  emit ev ;;;
  st <- get ;;
  ret (fault (world st)).

(** [if err := m; err != nil { return err }; k] *)
Definition or_return (m k : M (option error)) : M (option error) :=
  e <- m ;;
  match e with
  | Some err => ret (Some err)
  | None => k
  end.

Notation "m ?;; k" := (or_return m k)
  (at level 100, right associativity).

Fixpoint for_each {A} (l : list A) (body : A → M unit) : M unit :=
  match l with
  | [] => ret tt
  | x :: l' => body x ;;; for_each l' body
  end.

Definition is_mem_Store (s : StateStore) : bool :=
  match s with
  | mem_Store => true
  | _ => false
  end.

(** ** select in forwardTCP *)

Inductive select_case : Type := SendCase | TimerCase.

(** Which case of [select { case ln.conn <- c: ; case <-t.C: }] runs, and
    after how long. [arrival] is the delay after which a receiver is ready on
    the channel ([None]: no receiver ever comes); [d] is the timer. When
    both become ready together the runtime picks one: [tie]. *)
Definition select_ready (arrival : option Z) (d : Z) (tie : bool)
  : select_case * Z :=
  match arrival with
  | None => (TimerCase, d)
  | Some t =>
      if (t <? d)%Z then (SendCase, Z.max 0 t)
      else if (d <? t)%Z then (TimerCase, d)
      else (if tie then SendCase else TimerCase, d)
  end.

Definition select_send_or_timer (ch : ptr) (c : Conn) (arrival : option Z)
    (tie : bool) : M Z :=
  st <- get ;;
  match chans st !! ch with
  | Some ChanClosed => panic "send on closed channel"
  | Some ChanOpen =>
      match select_ready arrival time_Second tie with
      | (SendCase, t) => emit (EvSend ch c) ;;; ret t
      | (TimerCase, t) => emit (EvConnClose c) ;;; ret t
      end
  | None => emit (EvConnClose c) ;;; ret time_Second
  end.

Section Tsnet.
Context `{GoLib}.

(** ** getTSNetDir *)

Definition getTSNetDir (confDir prog : string) : M (result string) :=
  let oldPath := filepath_Join confDir ("tslib-" ++ prog) in
  let newPath := filepath_Join confDir ("tsnet-" ++ prog) in
  r <- os_Lstat oldPath ;;
  if os_IsNotExist (err_of r) then ret (Ok newPath)
  else
    match r with
    | Err err => ret (Err err)
    | Ok fi =>
        if negb (IsDir fi) then
          ret (Err (Errorf
            "expected old tslib path %q to be a directory; got %v"
            [oldPath; Mode fi]))
        else
          r2 <- os_Lstat newPath ;;
          match r2 with
          | Ok fi2 =>
              if IsDir fi2 then ret (Ok newPath)
              else
                e <- os_Rename oldPath newPath ;;
                match e with
                | Some err => ret (Err err)
                | None => ret (Ok newPath)
                end
          | Err err2 =>
              if negb (os_IsNotExist (Some err2)) then ret (Err err2)
              else
                e <- os_Rename oldPath newPath ;;
                match e with
                | Some err => ret (Err err)
                | None => ret (Ok newPath)
                end
          end
    end.

(** ** Server.start *)

(** Lines 139-143: the store policy. *)
Definition start_store_policy : M (option error) :=
  store <- gets Store ;;
  eph <- gets Ephemeral ;;
  match store with
  | Some sto =>
      if negb eph then
        if negb (is_mem_Store sto) then
          ret (Some (Errorf
            "in-memory store is only supported for Ephemeral nodes" []))
        else ret None
      else ret None
  | None => ret None
  end.

(** Lines 147-164: the state directory. *)
Definition start_rootPath (prog : string) : M (option error) :=
  rp <- gets rootPath ;;
  (if decide (rp = "") then
     st <- get ;;
     match os_UserConfigDir (world st) with
     | Err err => ret (Some err)
     | Ok confDir =>
         r <- getTSNetDir confDir prog ;;
         match r with
         | Err err =>
             modify (on_srv (with_rootPath "")) ;;;
             ret (Some err)
         | Ok dir =>
             modify (on_srv (with_rootPath dir)) ;;;
             os_MkdirAll dir
         end
     end
   else ret None) ?;;
  rp <- gets rootPath ;;
  r <- os_Stat rp ;;
  match r with
  | Err err => ret (Some err)
  | Ok fi =>
      if negb (IsDir fi) then ret (Some (Errorf "%v is not a directory" [rp]))
      else ret None
  end.

(** Lines 169-204: link monitor, engine and netstack. *)
Definition start_netstack : M (option error) :=
  e <- call EvMonitorNew monitor_New_fault ;;
  match e with
  | Some err => modify (on_srv (with_linkMon None)) ;;; ret (Some err)
  | None =>
      modify (on_srv (with_linkMon (Some tt))) ;;;
      modify (on_srv (with_dialer (Some tt))) ;;;
      call EvNewUserspaceEngine NewUserspaceEngine_fault ?;;
      st <- get ;;
      if negb (GetInternals_ok (world st)) then
        ret (Some (Errorf "%T is not a wgengine.InternalsGetter" ["eng"]))
      else
        e <- call EvNetstackCreate netstack_Create_fault ;;
        match e with
        | Some err => ret (Some (Wrapf "netstack.Create: %w" err))
        | None =>
            e <- call EvNetstackStart netstack_Start_fault ;;
            match e with
            | Some err => ret (Some (Wrapf "failed to start netstack: %w" err))
            | None => ret None
            end
        end
  end.

(** Lines 206-269: store, backend, login and the local API. *)
Definition start_backend : M (option error) :=
  store <- gets Store ;;
  (match store with
   | None =>
       rp <- gets rootPath ;;
       let stateFile := filepath_Join rp "tailscaled.state" in
       e <- call (EvStoreNew stateFile) store_New_fault ;;
       match e with
       | Some err => ret (Some err)
       | None =>
           modify (on_srv (with_Store (Some (FileStore stateFile)))) ;;;
           ret None
       end
   | Some _ => ret None
   end) ?;;
  eph <- gets Ephemeral ;;
  e <- call (EvNewLocalBackend eph) NewLocalBackend_fault ;;
  match e with
  | Some err => ret (Some (Msgf "NewLocalBackend: %v" err))
  | None =>
      modify (on_srv (with_lb (Some tt))) ;;;
      h <- gets hostname ;;
      st <- get ;;
      let authKey := env_TS_AUTHKEY (world st) in
      e <- call (EvBackendStart h authKey) lb_Start_fault ;;
      match e with
      | Some err => ret (Some (Wrapf "starting backend: %w" err))
      | None =>
          (if bool_decide (lb_State (world st) = NeedsLogin)
              || env_TSNET_FORCE_LOGIN (world st)
           then emit EvStartLoginInteractive
           else ret tt) ;;;
          emit EvGoPrintAuthURLLoop ;;;
          modify (on_srv (with_localAPIListener (Some tt))) ;;;
          emit EvServeLocalAPI ;;;
          ret None
      end
  end.

(** [func (s *Server) start() error] *)
Definition start : M (option error) :=
  st <- get ;;
  match os_Executable (world st) with
  | Err err => ret (Some err)
  | Ok exe =>
      let prog :=
        strings_TrimSuffix (strings_ToLower (filepath_Base exe)) ".exe" in
      modify (on_srv (λ s, with_hostname (Hostname s) s)) ;;;
      h <- gets hostname ;;
      (if decide (h = "") then modify (on_srv (with_hostname prog))
       else ret tt) ;;;
      modify (on_srv (λ s, with_rootPath (Dir s) s)) ;;;
      start_store_policy ?;;
      start_rootPath prog ?;;
      start_netstack ?;;
      start_backend
  end.

(** [func (s *Server) doInit()] *)
Definition doInit : M unit :=
  modify (on_srv (with_shutdownCtx (Some false))) ;;;
  e <- start ;;
  match e with
  | Some err => modify (on_srv (with_initErr (Some (Wrapf "tsnet: %w" err))))
  | None => ret tt
  end.

(** [sync.Once.Do]: [f] runs when the once has not fired, and the once
    fires when [f] returns or panics. *)
Definition initOnce_Do (f : M unit) : M unit :=
  done <- gets initOnce ;;
  if done then ret tt
  else defer (modify (on_srv (with_initOnce true))) f.

(** [func (s *Server) Start() error] *)
Definition Server_Start : M (option error) :=
  initOnce_Do doInit ;;;
  gets initErr.

(** ** Server.Close *)

Definition shutdownCancel : M unit :=
  ctx <- gets shutdownCtx ;;
  match ctx with
  | None => panic "invalid memory address or nil pointer dereference"
  | Some _ =>
      modify (on_srv (with_shutdownCtx (Some true))) ;;;
      emit EvShutdownCancel
  end.

Definition handle_call (h : Server → option unit) (ev : event) : M unit :=
  x <- gets h ;;
  match x with
  | None => panic "invalid memory address or nil pointer dereference"
  | Some _ => emit ev
  end.

(** The order in which [range] walks the map. *)
Definition range_listeners (ls : option (gmap listenKey ptr)) : list ptr :=
  match ls with
  | Some m => (map_to_list m).*2
  | None => []
  end.

(** [func (s *Server) Close() error] *)
Definition Server_Close : M (option error) :=
  shutdownCancel ;;;
  handle_call lb EvBackendShutdown ;;;
  handle_call linkMon EvLinkMonClose ;;;
  handle_call localAPIListener EvLocalAPIListenerClose ;;;
  Lock ;;;
  defer Unlock (
    ls <- gets listeners ;;
    for_each (range_listeners ls) (λ ln, listener_Close ln ;;; ret tt) ;;;
    modify (on_srv (with_listeners None)) ;;;
    ret None).

(** ** printAuthURLLoop *)

(** One goroutine runs the loop; [fuel] bounds the number of rounds that
    are followed. The result tells whether the loop has returned. Within a
    round nothing else runs, so the five-second timer is the case of the
    [select] that fires when the context was live at the top of the round. *)
Fixpoint printAuthURLLoop (fuel : nat) : M bool :=
  match fuel with
  | O => ret false
  | S fuel' =>
      ctx <- gets shutdownCtx ;;
      match ctx with
      | None => panic "invalid memory address or nil pointer dereference"
      | Some true => ret true
      | Some false =>
          st <- get ;;
          if bool_decide (lb_State (world st) = NeedsLogin)
          then printAuthURLLoop fuel'
          else ret true
      end
  end.

(** ** forwardTCP *)

(** [func (s *Server) forwardTCP(c net.Conn, port uint16)]. [arrival] and
    [tie] describe the receivers of the channel during the [select] (see
    [select_ready]); the value returned is the time spent in the [select].
    The call runs as one step: the registry and the channel are as the
    lookup found them when the [select] starts. *)
Definition forwardTCP (c : Conn) (port : uint16) (arrival : option Z)
    (tie : bool) : M Z :=
  Lock ;;;
  ls <- gets listeners ;;
  let r := map_index ls (ListenKey "tcp" "" (fmt_Sprint port)) in
  Unlock ;;;
  match r with
  | None => emit (EvConnClose c) ;;; ret 0%Z
  | Some p =>
      ln <- deref p ;;
      select_send_or_timer (conn ln) c arrival tie
  end.

(** ** Server.Listen *)

(** [func (s *Server) Listen(network, addr string) (net.Listener, error)] *)
Definition Server_Listen (network addr : string) : M (result ptr) :=
  match net_SplitHostPort addr with
  | Err err => ret (Err (Wrapf "tsnet: %w" err))
  | Ok (host, port) =>
      e <- Server_Start ;;
      match e with
      | Some err => ret (Err err)
      | None =>
          let key := ListenKey network host port in
          ch <- make_chan ;;
          ln <- new_listener (Listener key addr ch) ;;
          Lock ;;;
          ls <- gets listeners ;;
          (match ls with
           | None => modify (on_srv (with_listeners (Some ∅)))
           | Some _ => ret tt
           end) ;;;
          ls <- gets listeners ;;
          match map_index ls key with
          | Some _ =>
              Unlock ;;;
              ret (Err (Errorf "tsnet: listener already open for %s, %s"
                          [network; addr]))
          | None =>
              modify (on_srv (with_listeners (insert key ln <$> ls))) ;;;
              Unlock ;;;
              ret (Ok ln)
          end
      end
  end.

End Tsnet.

(** ** A Unix instance of the library interface

    Used to run the embedding on concrete inputs. Paths are taken clean and
    text is ASCII. *)

Module Unix.

Fixpoint index_byte (c : Ascii.ascii) (s : string) : option nat :=
  match s with
  | EmptyString => None
  | String a s' => if decide (a = c) then Some 0 else S <$> index_byte c s'
  end.

Fixpoint last_index_byte (c : Ascii.ascii) (s : string) : option nat :=
  match s with
  | EmptyString => None
  | String a s' =>
      match last_index_byte c s' with
      | Some i => Some (S i)
      | None => if decide (a = c) then Some 0 else None
      end
  end.

(** [s[i:j]] and [s[i:]] *)
Definition slice (i j : nat) (s : string) : string :=
  String.substring i (j - i) s.
Definition slice_from (i : nat) (s : string) : string :=
  String.substring i (String.length s - i) s.

Definition addrErr (addr why : string) : result (string * string) :=
  Err (Errorf "address %s: %s" [addr; why]).

(** [net.SplitHostPort] (Go, net/ipsock.go). *)
Definition SplitHostPort (hostport : string) : result (string * string) :=
  let missingPort := "missing port in address" in
  let tooManyColons := "too many colons in address" in
  match last_index_byte ":" hostport with
  | None => addrErr hostport missingPort
  | Some i =>
      let bracket :=
        if decide (String.get 0 hostport = Some "["%char) then
          match index_byte "]" hostport with
          | None => inl "missing ']' in address"
          | Some e =>
              if decide (e + 1 = String.length hostport) then inl missingPort
              else if decide (e + 1 = i) then inr (slice 1 e hostport, 1, e + 1)
              else if decide (String.get (e + 1) hostport = Some ":"%char)
                   then inl tooManyColons
                   else inl missingPort
          end
        else
          let h := slice 0 i hostport in
          match index_byte ":" h with
          | Some _ => inl tooManyColons
          | None => inr (h, 0, 0)
          end in
      match bracket with
      | inl why => addrErr hostport why
      | inr (h, j, k) =>
          match index_byte "[" (slice_from j hostport) with
          | Some _ => addrErr hostport "unexpected '[' in address"
          | None =>
              match index_byte "]" (slice_from k hostport) with
              | Some _ => addrErr hostport "unexpected ']' in address"
              | None => Ok (h, slice_from (i + 1) hostport)
              end
          end
      end
  end.

(** [filepath.Base] on a path without trailing separators. *)
Definition Base (path : string) : string :=
  if decide (path = "") then "."
  else match last_index_byte "/" path with
       | None => path
       | Some i =>
           let b := slice_from (i + 1) path in
           if decide (b = "") then "/" else b
       end.

(** [filepath.Join] of two clean elements. *)
Definition Join (dir elem : string) : string :=
  if decide (dir = "") then elem
  else if decide (elem = "") then dir
  else dir ++ "/" ++ elem.

Definition lower_byte (a : Ascii.ascii) : Ascii.ascii :=
  let n := Ascii.nat_of_ascii a in
  if (65 <=? n)%nat && (n <=? 90)%nat then Ascii.ascii_of_nat (n + 32) else a.

Fixpoint ToLower (s : string) : string :=
  match s with
  | EmptyString => EmptyString
  | String a s' => String (lower_byte a) (ToLower s')
  end.

Definition TrimSuffix (s suffix : string) : string :=
  let n := String.length s in
  let m := String.length suffix in
  if (m <=? n)%nat && bool_decide (slice_from (n - m) s = suffix)
  then slice 0 (n - m) s
  else s.

End Unix.

#[global] Instance unix_lib : GoLib := {|
  net_SplitHostPort := Unix.SplitHostPort;
  filepath_Base := Unix.Base;
  filepath_Join := Unix.Join;
  strings_ToLower := Unix.ToLower;
  strings_TrimSuffix := Unix.TrimSuffix;
|}.

(** ** Initial states *)

(** The zero [Server] with its exported fields set. *)
Definition new_Server (dir : string) (store : option StateStore)
    (hostname : string) (ephemeral : bool) : Server :=
  MkServer dir store hostname ephemeral false None None None None "" ""
    None false None None.

Definition init_state (s : Server) (w : World) : State :=
  MkState s ∅ ∅ w.

(** A world in which every collaborator answers without error. *)
Definition quiet_world (exe confDir : string) (files : gmap string fentry)
  : World :=
  MkWorld (Ok exe) (Ok confDir) files None None None None true None None
    None None None Running "" false [].

(** ** Specification vocabulary *)

(** [keeps R m]: from every state [m] returns, and relates the state it
    leaves to the one it found by [R]. *)
Definition keeps (R : State → State → Prop) {A} (m : M A) : Prop :=
  ∀ st, ∃ a st', m st = Ret a st' ∧ R st st'.

(** What [start] leaves alone: the lock, the registry, both heaps and the
    latch of [Start]. *)
Definition same_registry (st st' : State) : Prop :=
  mu (srv st') = mu (srv st) ∧
  listeners (srv st') = listeners (srv st) ∧
  lns st' = lns st ∧
  chans st' = chans st ∧
  initOnce (srv st') = initOnce (srv st) ∧
  initErr (srv st') = initErr (srv st).

Definition is_rename (e : event) : bool :=
  match e with
  | EvRename _ _ => true
  | _ => false
  end.

(** The calls of [os.Rename] made so far. *)
Definition renames (st : State) : list event :=
  filter (λ e, is_rename e = true) (trace (world st)).

(** What happens after the state directory is resolved leaves the directory
    tree and the resolved path alone, and renames nothing. *)
Definition same_dirs (st st' : State) : Prop :=
  fs (world st') = fs (world st) ∧
  rootPath (srv st') = rootPath (srv st) ∧
  renames st' = renames st.

Section Repeat.
Context `{GoLib}.

(** [n] calls of [Start] in a row, with their results. *)
Fixpoint Start_n (n : nat) : M (list (option error)) :=
  match n with
  | O => ret []
  | S n' =>
      r <- Server_Start ;;
      rs <- Start_n n' ;;
      ret (r :: rs)
  end.

End Repeat.

(** The states in which the methods are called: nobody holds the lock;
    every registered pointer is a listener filed under its own key whose
    channel is open; every listener has a channel of its own; and a registry
    entry exists only once [Start] has succeeded. *)
Record wf (st : State) : Prop := MkWf {
  wf_unlocked : mu (srv st) = false;
  wf_registered : ∀ k p,
    map_index (listeners (srv st)) k = Some p →
    ∃ ln, lns st !! p = Some ln ∧ key ln = k
          ∧ chans st !! conn ln = Some ChanOpen;
  wf_chan_alloc : ∀ p ln,
    lns st !! p = Some ln → is_Some (chans st !! conn ln);
  wf_chan_own : ∀ p q lp lq,
    lns st !! p = Some lp → lns st !! q = Some lq →
    conn lp = conn lq → p = q;
  wf_started : ∀ k p,
    map_index (listeners (srv st)) k = Some p →
    initOnce (srv st) = true ∧ initErr (srv st) = None;
}.

(** The state [listener.Close] leaves when the listener is the registrant. *)
Definition closed_state (ln : listener) (st : State) : State :=
  with_chans (<[conn ln := ChanClosed]> (chans st))
    (on_srv (with_listeners (map_delete (key ln) (listeners (srv st)))) st).

(** The state after [Listen] has built its listener: a new channel and a
    new listener object, not yet filed. *)
Definition built_state (k : listenKey) (a : string) (st : State) : State :=
  with_lns
    (<[fresh (dom (lns st)) := Listener k a (fresh (dom (chans st)))]> (lns st))
    (with_chans (<[fresh (dom (chans st)) := ChanOpen]> (chans st)) st).

(** The state after [Listen] has filed its listener under [k]. *)
Definition listened_state (k : listenKey) (a : string) (st : State) : State :=
  on_srv
    (with_listeners
       (Some (<[k := fresh (dom (lns st))]> (default ∅ (listeners (srv st))))))
    (built_state k a st).

(** The state [Server.Close] has reached when it asks for the lock. *)
Definition closing_state (st : State) : State :=
  on_world (λ w, with_trace (trace w ++ [EvLocalAPIListenerClose]) w)
    (on_world (λ w, with_trace (trace w ++ [EvLinkMonClose]) w)
       (on_world (λ w, with_trace (trace w ++ [EvBackendShutdown]) w)
          (on_world (λ w, with_trace (trace w ++ [EvShutdownCancel]) w)
             (on_srv (with_shutdownCtx (Some true)) st)))).

(** The handles [Server.Close] calls are set, as they are after a [Start]
    that succeeded. *)
Definition handles_set (st : State) : Prop :=
  is_Some (shutdownCtx (srv st)) ∧
  is_Some (lb (srv st)) ∧
  is_Some (linkMon (srv st)) ∧
  is_Some (localAPIListener (srv st)).

(** The state after [e] has been recorded. *)
Definition emitted (e : event) (st : State) : State :=
  on_world (λ w, with_trace (trace w ++ [e]) w) st.

(** What the policy of lines 139-143 lets through. *)
Definition store_policy_ok (s : Server) : bool :=
  match Store s with
  | Some sto => Ephemeral s || is_mem_Store sto
  | None => true
  end.

(** The state an outcome leaves behind. *)
Definition state_of {A} (o : outcome A) : State :=
  match o with
  | Ret _ st => st
  | Blocked st => st
  | Panic _ st => st
  end.

(** [n] calls of [listener.Close] in a row, with their results. *)
Fixpoint Close_n (n : nat) (p : ptr) : M (list (option error)) :=
  match n with
  | O => ret []
  | S n' =>
      r <- listener_Close p ;;
      rs <- Close_n n' p ;;
      ret (r :: rs)
  end.

(** [n] calls of [Accept] in a row; the [i]-th call meets the offer
    [offers i]. *)
Fixpoint Accept_n (n : nat) (p : ptr) (offers : nat → option Conn)
  : M (list (result Conn)) :=
  match n with
  | O => ret []
  | S n' =>
      r <- listener_Accept p (offers 0) ;;
      rs <- Accept_n n' p (λ i, offers (S i)) ;;
      ret (r :: rs)
  end.

(** [always R m]: whatever the outcome of [m], the state it leaves is
    related by [R] to the one it found. *)
Definition always (R : State → State → Prop) {A} (m : M A) : Prop :=
  ∀ st, R st (state_of (m st)).

(** Listener objects are never overwritten and a closed channel is never
    reopened. *)
Definition closed_stays (st st' : State) : Prop :=
  (∀ c, chans st !! c = Some ChanClosed → chans st' !! c = Some ChanClosed) ∧
  (∀ p ln, lns st !! p = Some ln → lns st' !! p = Some ln).

(** The methods a program can call on the server and its listeners. *)
Inductive api : Type :=
| ApiStart
| ApiListen (network addr : string)
| ApiAccept (p : ptr) (offer : option Conn)
| ApiListenerClose (p : ptr)
| ApiForwardTCP (c : Conn) (port : uint16) (arrival : option Z) (tie : bool)
| ApiClose.

Section Api.
Context `{GoLib}.

(** The state one call leaves, whether it returns, parks or panics. *)
Definition run_api (a : api) (st : State) : State :=
  match a with
  | ApiStart => state_of (Server_Start st)
  | ApiListen network addr => state_of (Server_Listen network addr st)
  | ApiAccept p offer => state_of (listener_Accept p offer st)
  | ApiListenerClose p => state_of (listener_Close p st)
  | ApiForwardTCP c port arrival tie => state_of (forwardTCP c port arrival tie st)
  | ApiClose => state_of (Server_Close st)
  end.

Fixpoint run_apis (l : list api) (st : State) : State :=
  match l with
  | [] => st
  | a :: l' => run_apis l' (run_api a st)
  end.

Definition is_Ret {A} (o : outcome A) : Prop :=
  match o with
  | Ret _ _ => True
  | _ => False
  end.

Definition api_returns (a : api) (st : State) : Prop :=
  match a with
  | ApiStart => is_Ret (Server_Start st)
  | ApiListen network addr => is_Ret (Server_Listen network addr st)
  | ApiAccept p offer => is_Ret (listener_Accept p offer st)
  | ApiListenerClose p => is_Ret (listener_Close p st)
  | ApiForwardTCP c port arrival tie =>
      is_Ret (forwardTCP c port arrival tie st)
  | ApiClose => is_Ret (Server_Close st)
  end.

(** The states a program sees between calls: a fresh server, then the
    state each returning call leaves. *)
Inductive reachable : State → Prop :=
| reach_init s w :
    mu s = false → listeners s = None → reachable (init_state s w)
| reach_call a st :
    reachable st → api_returns a st → reachable (run_api a st).

End Api.

(** ** Dial and the address of a listener *)

Section Dial.
Context `{GoLib}.

(** [func (s *Server) Dial(ctx, network, address) (net.Conn, error)].
    [answer] is what [s.dialer.UserDial(ctx, network, address)] returns. *)
Definition Server_Dial (network address : string) (answer : result Conn)
  : M (result Conn) :=
  e <- Server_Start ;;
  match e with
  | Some err => ret (Err err)
  | None =>
      d <- gets dialer ;;
      match d with
      | None => panic "invalid memory address or nil pointer dereference"
      | Some _ => ret answer
      end
  end.

End Dial.

(** [type addr struct{ ln *listener }] *)
Record listener_addr : Type := MkAddr {
  addr_ln : ptr;
}.

(** [func (ln *listener) Addr() net.Addr { return addr{ln} }] *)
Definition listener_Addr (p : ptr) : listener_addr := MkAddr p.

(** [func (a addr) Network() string { return a.ln.key.network }] *)
Definition addr_Network (a : listener_addr) : M string :=
  ln <- deref (addr_ln a) ;;
  ret (network (key ln)).

(** [func (a addr) String() string { return a.ln.addr }] *)
Definition addr_String (a : listener_addr) : M string :=
  ln <- deref (addr_ln a) ;;
  ret (addr ln).

Definition is_Panic {A} (o : outcome A) : Prop :=
  match o with
  | Panic _ _ => True
  | _ => False
  end.

(** ** Vocabulary for the further properties *)

Section StartShape.
Context `{GoLib}.

(** The state [start] has reached when it comes to the store policy: the
    hostname is defaulted from the executable and [rootPath] is [Dir]. *)
Definition prelude_state (exe : string) (st : State) : State :=
  let prog :=
    strings_TrimSuffix (strings_ToLower (filepath_Base exe)) ".exe" in
  let st_h := on_srv (λ s, with_hostname (Hostname s) s) st in
  let st_p := if decide (hostname (srv st_h) = "")
              then on_srv (with_hostname prog) st_h else st_h in
  on_srv (λ s, with_rootPath (Dir s) s) st_p.

End StartShape.

(** What [doInit] and the once make of the outcome of [start]. *)
Definition latch (o : outcome (option error)) : outcome (option error) :=
  match o with
  | Ret (Some err) st =>
      Ret (Some (StartupError err))
          (on_srv (with_initOnce true)
             (on_srv (with_initErr (Some (StartupError err))) st))
  | Ret None st => Ret (initErr (srv st)) (on_srv (with_initOnce true) st)
  | Blocked st => Blocked st
  | Panic msg st => Panic msg (on_srv (with_initOnce true) st)
  end.

(** A server on which [Start] has succeeded has every handle set. *)
Definition ready (st : State) : Prop :=
  initOnce (srv st) = true → initErr (srv st) = None →
  handles_set st ∧ is_Some (dialer (srv st)).

(** The calls a successful [start] makes after the state directory is
    resolved, in order. *)
Definition startup_calls (storeGiven eph : bool) (stateFile hostname authKey
    : string) (login : bool) : list event :=
  [EvMonitorNew; EvNewUserspaceEngine; EvNetstackCreate; EvNetstackStart]
  ++ (if storeGiven then [] else [EvStoreNew stateFile])
  ++ [EvNewLocalBackend eph; EvBackendStart hostname authKey]
  ++ (if login then [EvStartLoginInteractive] else [])
  ++ [EvGoPrintAuthURLLoop; EvServeLocalAPI].

(** The answers the collaborators hold in store are the same in both
    states: the worlds differ at most in the directory tree and the trace. *)
Definition same_oracles (st st' : State) : Prop :=
  with_fs ∅ (with_trace [] (world st')) = with_fs ∅ (with_trace [] (world st)).

(** The shutdown context is the same in both states. *)
Definition same_ctx (st st' : State) : Prop :=
  shutdownCtx (srv st') = shutdownCtx (srv st).

Definition is_fs_call (e : event) : bool :=
  match e with
  | EvLstat _ | EvRename _ _ | EvMkdirAll _ | EvStat _ => true
  | _ => false
  end.

(** Between the two states only calls to the file system were made. *)
Definition fs_calls_only (st st' : State) : Prop :=
  ∃ evs, trace (world st') = (trace (world st) ++ evs)%list
         ∧ Forall (λ e, is_fs_call e = true) evs.

(** Between the two states no call to the file system was made. *)
Definition other_calls_only (st st' : State) : Prop :=
  ∃ evs, trace (world st') = (trace (world st) ++ evs)%list
         ∧ Forall (λ e, is_fs_call e = false) evs.

Section InUse.
Context `{GoLib}.

(** The states of a server created with its exported fields only, between
    the calls a program makes on it. *)
Inductive in_use : State → Prop :=
| use_new dir store hn eph w :
    in_use (init_state (new_Server dir store hn eph) w)
| use_call a st :
    in_use st → api_returns a st → in_use (run_api a st).

End InUse.

(** Concrete inputs used to run the embedding. *)
Definition demo_world : World :=
  quiet_world "/usr/local/bin/App.exe" "/home/u/.config" ∅.

Definition demo_state : State :=
  init_state (new_Server "" None "" false) demo_world.

(** The server after [Listen("tcp", ":80")]; its listener is at address 0. *)
Definition listening_state : State :=
  state_of (Server_Listen "tcp" ":80" demo_state).

Definition ln80 : listener := Listener (ListenKey "tcp" "" "80") ":80" 0.

(** The server after [Listen("tcp", ":0080")]. *)
Definition listening_0080_state : State :=
  state_of (Server_Listen "tcp" ":0080" demo_state).

Definition ln0080 : listener :=
  Listener (ListenKey "tcp" "" "0080") ":0080" 0.

(** A fresh server in a world that only has the legacy directory. *)
Definition legacy_state : State :=
  init_state (new_Server "" None "" false)
    (quiet_world "/usr/local/bin/App.exe" "/home/u/.config"
       {[ "/home/u/.config/tslib-app" := EDir ]}).

(** A server that is not ephemeral, given an in-memory store. *)
Definition mem_store_state : State :=
  init_state (new_Server "" (Some mem_Store) "" false) demo_world.

(** A server that is not ephemeral, given a file store. *)
Definition file_store_state : State :=
  init_state (new_Server "" (Some (FileStore "/var/lib/app/ts.state")) "" false)
    demo_world.

(** The server after a [Start] in the quiet world. *)
Definition started_state : State := state_of (Server_Start demo_state).

(** A fresh server whose executable cannot be found. *)
Definition broken_state : State :=
  init_state (new_Server "" None "" false)
    (MkWorld (Err (external "os" "executable not found")) (Ok "/home/u/.config")
       ∅ None None None None true None None None None None Running "" false []).


(** A fresh server in a world where the legacy path is a regular file. *)
Definition legacy_file_state : State :=
  init_state (new_Server "" None "" false)
    (quiet_world "/usr/local/bin/App.exe" "/home/u/.config"
       {[ "/home/u/.config/tslib-app" := ENotDir "-rw-r--r--" ]}).

(** * Properties *)

(** ** Running the monad *)

Lemma bind_Ret {A B} (m : M A) (k : A → M B) st a st' :
  m st = Ret a st' → bind m k st = k a st'.
Proof. intros E. unfold bind. by rewrite E. Qed.

Lemma bind_Blocked {A B} (m : M A) (k : A → M B) st st' :
  m st = Blocked st' → bind m k st = Blocked st'.
Proof. intros E. unfold bind. by rewrite E. Qed.

Lemma state_eta (st : State) :
  MkState (srv st) (lns st) (chans st) (world st) = st.
Proof. by destruct st. Qed.

Lemma lock_unlock_id (st : State) :
  mu (srv st) = false →
  on_srv (with_mu false) (on_srv (with_mu true) st) = st.
Proof. destruct st as [[] ? ? ?]; simpl. by intros ->. Qed.

(** ** Methods that always return, within a frame *)

Section Keeps.
Context (R : State → State → Prop) `{!Reflexive R, !Transitive R}.

Lemma keeps_ret {A} (a : A) : keeps R (ret a).
Proof. intros st. by exists a, st. Qed.

Lemma keeps_get : keeps R get.
Proof. intros st. by exists st, st. Qed.

Lemma keeps_gets {A} (f : Server → A) : keeps R (gets f).
Proof. intros st. by exists (f (srv st)), st. Qed.

Lemma keeps_bind {A B} (m : M A) (k : A → M B) :
  keeps R m → (∀ a, keeps R (k a)) → keeps R (bind m k).
Proof.
  intros Hm Hk st. destruct (Hm st) as (a & st1 & E1 & R1).
  destruct (Hk a st1) as (b & st2 & E2 & R2).
  exists b, st2. split; [by rewrite (bind_Ret _ _ _ _ _ E1) | by etrans].
Qed.

Lemma keeps_or_return (m k : M (option error)) :
  keeps R m → keeps R k → keeps R (or_return m k).
Proof.
  intros Hm Hk. apply keeps_bind; [done|]. intros [e|]; [apply keeps_ret | done].
Qed.

Lemma keeps_modify (f : State → State) :
  (∀ st, R st (f st)) → keeps R (modify f).
Proof. intros Hf st. by exists tt, (f st). Qed.

Lemma keeps_defer {A} (f : M unit) (body : M A) :
  keeps R f → keeps R body → keeps R (defer f body).
Proof.
  intros Hf Hb st. destruct (Hb st) as (a & st1 & E1 & R1).
  destruct (Hf st1) as ([] & st2 & E2 & R2).
  exists a, st2. split; [|by etrans]. unfold defer. by rewrite E1, E2.
Qed.
End Keeps.

#[global] Instance same_registry_refl : Reflexive same_registry.
Proof. by intros st. Qed.
#[global] Instance same_registry_trans : Transitive same_registry.
Proof.
  intros a b c (?&?&?&?&?&?) (?&?&?&?&?&?). repeat split; congruence.
Qed.

#[global] Instance same_dirs_refl : Reflexive same_dirs.
Proof. by intros st. Qed.
#[global] Instance same_dirs_trans : Transitive same_dirs.
Proof. intros a b c (?&?&?) (?&?&?). repeat split; congruence. Qed.

Lemma renames_emit st e :
  is_rename e = false →
  renames (on_world (λ w, with_trace (trace w ++ [e]) w) st) = renames st.
Proof.
  intros He. unfold renames; simpl. rewrite filter_app, filter_cons.
  rewrite decide_False by (rewrite He; done).
  by rewrite filter_nil, List.app_nil_r.
Qed.

Ltac keeps_side :=
  try match goal with
      | |- Reflexive _ => apply _
      | |- Transitive _ => apply _
      end.

Lemma emit_same_registry e : keeps same_registry (emit e).
Proof. apply keeps_modify; keeps_side. by intros st. Qed.

Lemma emit_same_dirs e : is_rename e = false → keeps same_dirs (emit e).
Proof.
  intros He. apply keeps_modify; keeps_side. intros st.
  split; [done|]. split; [done|]. by apply renames_emit.
Qed.

(** Closes [keeps R m] by walking the structure of [m]. *)
Ltac keeps_field :=
  intros ?; repeat split; simpl; try reflexivity.

Ltac keeps_walk :=
  repeat
    (intros;
     lazymatch goal with
     | |- keeps _ (ret _) => apply keeps_ret; keeps_side
     | |- keeps _ get => apply keeps_get; keeps_side
     | |- keeps _ (gets _) => apply keeps_gets; keeps_side
     | |- keeps same_registry (emit _) => apply emit_same_registry
     | |- keeps same_dirs (emit _) => apply emit_same_dirs; reflexivity
     | |- keeps _ (or_return _ _) => apply keeps_or_return; keeps_side
     | |- keeps _ (bind _ _) => apply keeps_bind; keeps_side
     | |- keeps _ (modify _) => apply keeps_modify; keeps_side; keeps_field
     | |- keeps _ (match _ with _ => _ end) => case_match
     end).

Lemma call_same_registry ev fault : keeps same_registry (call ev fault).
Proof. unfold call. keeps_walk. Qed.

Lemma call_same_dirs ev fault :
  is_rename ev = false → keeps same_dirs (call ev fault).
Proof.
  intros He. unfold call.
  apply keeps_bind; keeps_side; [by apply emit_same_dirs|]. keeps_walk.
Qed.

Section TsnetFrames.
Context `{GoLib}.

Ltac keeps_calls :=
  repeat
    (intros;
     lazymatch goal with
     | |- keeps same_registry (call _ _) => apply call_same_registry
     | |- keeps same_dirs (call _ _) => apply call_same_dirs; reflexivity
     | |- _ => progress keeps_walk
     end).

Lemma start_netstack_same_registry : keeps same_registry start_netstack.
Proof. unfold start_netstack. keeps_calls. Qed.

Lemma start_netstack_same_dirs : keeps same_dirs start_netstack.
Proof. unfold start_netstack. keeps_calls. Qed.

Lemma start_backend_same_registry : keeps same_registry start_backend.
Proof. unfold start_backend. keeps_calls. Qed.

Lemma start_backend_same_dirs : keeps same_dirs start_backend.
Proof. unfold start_backend. keeps_calls. Qed.

Lemma os_Lstat_same_registry path : keeps same_registry (os_Lstat path).
Proof. unfold os_Lstat. keeps_walk. Qed.

Lemma os_Stat_same_registry path : keeps same_registry (os_Stat path).
Proof. unfold os_Stat. keeps_walk. Qed.

Lemma os_Rename_same_registry o n : keeps same_registry (os_Rename o n).
Proof. unfold os_Rename. keeps_walk. Qed.

Lemma os_MkdirAll_same_registry path : keeps same_registry (os_MkdirAll path).
Proof. unfold os_MkdirAll. keeps_walk. Qed.

Lemma getTSNetDir_same_registry confDir prog :
  keeps same_registry (getTSNetDir confDir prog).
Proof.
  unfold getTSNetDir.
  repeat
    (intros;
     lazymatch goal with
     | |- keeps _ (os_Lstat _) => apply os_Lstat_same_registry
     | |- keeps _ (os_Rename _ _) => apply os_Rename_same_registry
     | |- _ => progress keeps_walk
     end).
Qed.

Lemma start_store_policy_pure st :
  ∃ r, start_store_policy st = Ret r st.
Proof.
  unfold start_store_policy, bind, gets, ret.
  repeat case_match; eauto.
Qed.

Lemma start_store_policy_same_registry : keeps same_registry start_store_policy.
Proof.
  intros st. destruct (start_store_policy_pure st) as [r E]. by exists r, st.
Qed.

Lemma start_rootPath_same_registry prog :
  keeps same_registry (start_rootPath prog).
Proof.
  unfold start_rootPath.
  repeat
    (intros;
     lazymatch goal with
     | |- keeps _ (os_Stat _) => apply os_Stat_same_registry
     | |- keeps _ (os_MkdirAll _) => apply os_MkdirAll_same_registry
     | |- keeps _ (getTSNetDir _ _) => apply getTSNetDir_same_registry
     | |- _ => progress keeps_walk
     end).
Qed.

Lemma start_same_registry : keeps same_registry start.
Proof.
  unfold start.
  repeat
    (intros;
     lazymatch goal with
     | |- keeps _ start_store_policy => apply start_store_policy_same_registry
     | |- keeps _ (start_rootPath _) => apply start_rootPath_same_registry
     | |- keeps _ start_netstack => apply start_netstack_same_registry
     | |- keeps _ start_backend => apply start_backend_same_registry
     | |- _ => progress keeps_walk
     end).
Qed.

(** [Start] always returns. It leaves the lock, the registry and the heaps
    alone; when the once has fired it changes nothing at all; the error it
    returns is the latched one. *)
Lemma Server_Start_returns st :
  ∃ r st1,
    Server_Start st = Ret r st1 ∧
    mu (srv st1) = mu (srv st) ∧
    listeners (srv st1) = listeners (srv st) ∧
    lns st1 = lns st ∧
    chans st1 = chans st ∧
    initOnce (srv st1) = true ∧
    initErr (srv st1) = r ∧
    (initOnce (srv st) = true → st1 = st) ∧
    (initOnce (srv st) = false → initErr (srv st) = None →
     r = None ∨ ∃ err, r = Some (Wrapf "tsnet: %w" err)).
Proof.
  unfold Server_Start, initOnce_Do, bind at 1 2, gets at 1; simpl.
  destruct (initOnce (srv st)) eqn:Hdone; simpl.
  - exists (initErr (srv st)), st. unfold gets. repeat split; auto; discriminate.
  - unfold defer, doInit, bind at 1 2, modify at 2; simpl.
    destruct (start_same_registry
                (on_srv (with_shutdownCtx (Some false)) st))
      as (e & st1 & E & Hmu & Hls & Hlns & Hch & Hin & Herr).
    rewrite E. simpl in *.
    destruct e as [err|]; unfold modify, ret, gets; simpl;
      eexists _, _; (split; [reflexivity|]); simpl;
      repeat split; auto; try discriminate.
    + intros _ _. right. by exists err.
    + intros _ Hnone. left. congruence.
Qed.

Lemma Start_n_latched st n :
  initOnce (srv st) = true →
  Start_n n st = Ret (replicate n (initErr (srv st))) st.
Proof.
  intros Hdone. induction n as [|n IH]; simpl; [done|].
  destruct (Server_Start_returns st) as (r & st1 & E & _ & _ & _ & _ & _ & Hr & Hsame & _).
  specialize (Hsame Hdone). subst st1.
  rewrite (bind_Ret _ _ _ _ _ E), (bind_Ret _ _ _ _ _ IH). by subst r.
Qed.


(** ** The listener *)

Lemma listener_Close_registrant st p ln :
  mu (srv st) = false →
  lns st !! p = Some ln →
  map_index (listeners (srv st)) (key ln) = Some p →
  chans st !! conn ln = Some ChanOpen →
  listener_Close p st = Ret None (closed_state ln st).
Proof.
  intros Hmu Hp Hreg Hch.
  unfold listener_Close, bind at 1, deref. rewrite Hp.
  unfold bind at 1, Lock. rewrite Hmu.
  unfold defer, bind at 1 2, gets; simpl. rewrite Hreg.
  rewrite decide_True by done.
  unfold bind, modify, close_chan; simpl. rewrite Hch. simpl.
  unfold Unlock; simpl. f_equal.
  unfold closed_state, with_chans, on_srv; simpl.
  destruct st as [[] ? ? ?]; simpl in *. by subst.
Qed.

Lemma listener_Close_not_registrant st p ln :
  mu (srv st) = false →
  lns st !! p = Some ln →
  map_index (listeners (srv st)) (key ln) ≠ Some p →
  listener_Close p st = Ret None st.
Proof.
  intros Hmu Hp Hreg.
  unfold listener_Close, bind at 1, deref. rewrite Hp.
  unfold bind at 1, Lock. rewrite Hmu.
  unfold defer, bind at 1 2, gets; simpl.
  destruct (map_index (listeners (srv st)) (key ln)) as [v|] eqn:Hv.
  - rewrite decide_False by congruence.
    unfold ret, bind, Unlock; simpl. by rewrite lock_unlock_id.
  - unfold ret, bind, Unlock; simpl. by rewrite lock_unlock_id.
Qed.

Lemma listener_Close_locked st p ln :
  mu (srv st) = true →
  lns st !! p = Some ln →
  listener_Close p st = Blocked st.
Proof.
  intros Hmu Hp.
  unfold listener_Close, bind at 1, deref. rewrite Hp.
  unfold bind at 1, Lock. by rewrite Hmu.
Qed.

Lemma listener_Accept_closed st p ln offer :
  lns st !! p = Some ln →
  chans st !! conn ln = Some ChanClosed →
  listener_Accept p offer st = Ret (Err ClosedListenerError) st.
Proof.
  intros Hp Hch. unfold listener_Accept, bind, deref, recv_chan.
  by rewrite Hp, Hch.
Qed.

Lemma listener_Accept_open st p ln offer :
  lns st !! p = Some ln →
  chans st !! conn ln = Some ChanOpen →
  listener_Accept p offer st =
    match offer with
    | Some c => Ret (Ok c) st
    | None => Blocked st
    end.
Proof.
  intros Hp Hch. unfold listener_Accept, bind, deref, recv_chan.
  rewrite Hp, Hch. by destruct offer.
Qed.

Lemma Accept_n_closed st p ln n offers :
  lns st !! p = Some ln →
  chans st !! conn ln = Some ChanClosed →
  Accept_n n p offers st = Ret (replicate n (Err ClosedListenerError)) st.
Proof.
  intros Hp Hch. revert offers. induction n as [|n IH]; intros offers; [done|].
  simpl.
  rewrite (bind_Ret _ _ _ _ _ (listener_Accept_closed st p ln _ Hp Hch)).
  by rewrite (bind_Ret _ _ _ _ _ (IH _)).
Qed.

Lemma map_index_delete k k' ls :
  map_index (map_delete k ls) k' =
    if decide (k' = k) then None else map_index ls k'.
Proof.
  destruct ls as [m|]; simpl; [|by case_decide].
  case_decide; [subst; apply lookup_delete_eq | by apply lookup_delete_ne].
Qed.

Lemma closed_state_wf st p ln :
  wf st →
  lns st !! p = Some ln →
  map_index (listeners (srv st)) (key ln) = Some p →
  wf (closed_state ln st).
Proof.
  intros [Hmu Hreg Halloc Hown Hst] Hp Hk. split; simpl.
  - done.
  - intros k q. rewrite map_index_delete. case_decide; [done|].
    intros Hq. destruct (Hreg k q Hq) as (lq & Hlq & Hkey & Hopen).
    exists lq. split; [done|]. split; [done|].
    rewrite lookup_insert_ne; [done|].
    intros Hc. assert (p = q) by eauto. congruence.
  - intros q lq Hq. destruct (decide (conn ln = conn lq)) as [->|].
    + rewrite lookup_insert_eq. eauto.
    + rewrite lookup_insert_ne by done. eauto.
  - eauto.
  - intros k q. rewrite map_index_delete. case_decide; [done|].
    destruct st as [[] ? ? ?]; simpl in *. eauto.
Qed.

(** Whatever its standing in the registry, a listener can be closed from a
    well-formed state: the call returns nil, and the state stays
    well-formed. *)
Lemma listener_Close_returns st p ln :
  wf st →
  lns st !! p = Some ln →
  ∃ st', listener_Close p st = Ret None st' ∧ wf st'
         ∧ lns st' = lns st
         ∧ map_index (listeners (srv st')) (key ln) ≠ Some p
         ∧ (map_index (listeners (srv st)) (key ln) ≠ Some p → st' = st)
         ∧ (map_index (listeners (srv st)) (key ln) = Some p →
            st' = closed_state ln st).
Proof.
  intros Hwf Hp.
  destruct (decide (map_index (listeners (srv st)) (key ln) = Some p))
    as [Hreg|Hreg].
  - destruct (wf_registered st Hwf _ _ Hreg) as (ln' & Hp' & _ & Hopen).
    assert (ln' = ln) by congruence. subst ln'.
    exists (closed_state ln st). split.
    { apply listener_Close_registrant; auto using wf_unlocked. }
    split; [by eapply closed_state_wf|]. split; [done|].
    split; [|split; [done|done]].
    simpl. rewrite map_index_delete. by rewrite decide_True.
  - exists st. split.
    { eapply listener_Close_not_registrant; eauto using wf_unlocked. }
    do 4 (split; [done|]). intros ?; contradiction.
Qed.

(** ** Listen *)

Lemma Server_Start_wf st r st1 :
  wf st → Server_Start st = Ret r st1 → wf st1.
Proof.
  intros [Hmu Hreg Halloc Hown Hst] E.
  destruct (Server_Start_returns st)
    as (r' & st1' & E' & Hmu' & Hls & Hlns & Hch & Hdone & Hr & Hsame & _).
  rewrite E in E'. injection E' as <- <-.
  split.
  - congruence.
  - intros k p. rewrite Hls, Hlns, Hch. apply Hreg.
  - intros p ln. rewrite Hlns, Hch. apply Halloc.
  - intros p q lp lq. rewrite Hlns. apply Hown.
  - intros k p. rewrite Hls. intros Hk.
    destruct (Hst k p Hk) as [Hon Herr].
    rewrite (Hsame Hon). done.
Qed.

Lemma Server_Listen_bad_address st network addr err :
  net_SplitHostPort addr = Err err →
  Server_Listen network addr st = Ret (Err (AddressParseError err)) st.
Proof. intros E. unfold Server_Listen. by rewrite E. Qed.

Lemma Server_Listen_after_Start st network addr h pt r st1 :
  net_SplitHostPort addr = Ok (h, pt) →
  Server_Start st = Ret r st1 →
  mu (srv st1) = false →
  Server_Listen network addr st =
    match r with
    | Some err => Ret (Err err) st1
    | None =>
        let k := ListenKey network h pt in
        match map_index (listeners (srv st1)) k with
        | Some _ =>
            Ret (Err (DuplicateListenerError network addr))
                (built_state k addr st1)
        | None =>
            Ret (Ok (fresh (dom (lns st1)))) (listened_state k addr st1)
        end
    end.
Proof.
  intros Hsplit E Hmu. unfold Server_Listen. rewrite Hsplit.
  rewrite (bind_Ret _ _ _ _ _ E). destruct r as [err|]; [done|].
  unfold bind at 1, make_chan. unfold bind at 1, new_listener.
  unfold bind at 1, Lock. simpl. rewrite Hmu.
  unfold bind at 1, gets at 1. simpl.
  destruct (listeners (srv st1)) as [m|] eqn:Hls; simpl.
  - unfold bind at 1, ret at 1. unfold bind at 1, gets. simpl. rewrite Hls.
    simpl. destruct (m !! _) as [q|] eqn:Hq.
    + unfold bind, Unlock, ret; simpl. f_equal.
      unfold built_state, with_lns, with_chans, on_srv; simpl.
      destruct st1 as [[] ? ? ?]; simpl in *. by subst.
    + unfold bind, modify, Unlock, ret; simpl. f_equal.
      unfold listened_state, built_state, with_lns, with_chans, on_srv; simpl.
      rewrite Hls. destruct st1 as [[] ? ? ?]; simpl in *. by subst.
  - unfold bind at 1, modify at 1. unfold bind at 1, gets. simpl.
    rewrite lookup_empty.
    unfold bind, modify, Unlock, ret; simpl. f_equal.
    unfold listened_state, built_state, with_lns, with_chans, on_srv; simpl.
    rewrite Hls. destruct st1 as [[] ? ? ?]; simpl in *. by subst.
Qed.

Lemma fresh_ptr_unused (m : gmap ptr listener) : m !! fresh (dom m) = None.
Proof. apply not_elem_of_dom, is_fresh. Qed.

Lemma fresh_chan_unused (m : gmap ptr chan) : m !! fresh (dom m) = None.
Proof. apply not_elem_of_dom, is_fresh. Qed.

Lemma built_state_wf k a st : wf st → wf (built_state k a st).
Proof.
  intros [Hmu Hreg Halloc Hown Hst]. split; simpl.
  - done.
  - intros k' q Hq. destruct (Hreg k' q Hq) as (lq & Hlq & Hkey & Hopen).
    exists lq. split; [|split; [done|]].
    + rewrite lookup_insert_ne; [done|]. intros <-.
      by rewrite fresh_ptr_unused in Hlq.
    + rewrite lookup_insert_ne; [done|]. intros Hc.
      rewrite <- Hc, fresh_chan_unused in Hopen. done.
  - intros q lq. rewrite lookup_insert. case_decide.
    + intros [= <-]. simpl. rewrite lookup_insert_eq. eauto.
    + intros Hq. destruct (Halloc q lq Hq) as [c Hc].
      rewrite lookup_insert_ne; [eauto|]. intros Hx.
      by rewrite <- Hx, fresh_chan_unused in Hc.
  - intros p q lp lq. rewrite !lookup_insert.
    repeat case_decide; subst; try done.
    + intros [= <-] Hq. simpl. intros Hc.
      destruct (Halloc q lq Hq) as [c Hx].
      by rewrite <- Hc, fresh_chan_unused in Hx.
    + intros Hp [= <-]. simpl. intros Hc.
      destruct (Halloc p lp Hp) as [c Hx].
      by rewrite Hc, fresh_chan_unused in Hx.
    + apply Hown.
  - destruct st as [[] ? ? ?]; simpl in *. done.
Qed.

Lemma listened_state_wf k a st :
  wf st →
  initOnce (srv st) = true →
  initErr (srv st) = None →
  map_index (listeners (srv st)) k = None →
  wf (listened_state k a st).
Proof.
  intros Hwf Hon Herr Hfree.
  destruct (built_state_wf k a st Hwf) as [Hmu Hreg Halloc Hown Hst].
  split; simpl.
  - done.
  - intros k' q. rewrite lookup_insert. case_decide.
    + intros [= <-]. subst k'. eexists. rewrite lookup_insert_eq.
      split; [done|]. split; [done|]. simpl. by rewrite lookup_insert_eq.
    + intros Hq. apply Hreg. simpl.
      destruct (listeners (srv st)); simpl in *; [done|].
      by rewrite lookup_empty in Hq.
  - apply Halloc.
  - apply Hown.
  - destruct st as [[] ? ? ?]; simpl in *. done.
Qed.

(** ** The state directory *)

Lemma start_store_policy_decides st :
  start_store_policy st =
    Ret (if store_policy_ok (srv st) then None else Some ConfigurationError) st.
Proof.
  unfold start_store_policy, store_policy_ok, bind, gets, ret.
  destruct (Store (srv st)) as [sto|]; [|done].
  by destruct (Ephemeral (srv st)), (is_mem_Store sto).
Qed.

Ltac run_os :=
  unfold start_rootPath, getTSNetDir, os_Lstat, os_Stat, os_Rename,
    os_MkdirAll, or_return, bind, gets, get, modify, emit, ret, lstat;
  simpl.

(** Only the legacy directory exists: it is renamed. *)
Lemma start_rootPath_migrates st confDir prog :
  let oldPath := filepath_Join confDir ("tslib-" ++ prog) in
  let newPath := filepath_Join confDir ("tsnet-" ++ prog) in
  rootPath (srv st) = "" →
  os_UserConfigDir (world st) = Ok confDir →
  os_Rename_fault (world st) = None →
  os_MkdirAll_fault (world st) = None →
  fs (world st) !! oldPath = Some EDir →
  fs (world st) !! newPath = None →
  ∃ st',
    start_rootPath prog st = Ret None st' ∧
    same_registry st st' ∧
    rootPath (srv st') = newPath ∧
    fs (world st') = <[newPath := EDir]> (delete oldPath (fs (world st))) ∧
    renames st' = (renames st ++ [EvRename oldPath newPath])%list.
Proof.
  intros oldPath newPath Hroot Hconf Hren Hmk Hold Hnew.
  run_os. rewrite Hroot. simpl. rewrite Hconf. fold oldPath newPath.
  rewrite Hold. simpl. rewrite Hnew. simpl. rewrite Hren, Hold. simpl.
  rewrite Hmk. repeat (rewrite lookup_insert_eq; simpl).
  eexists. split; [reflexivity|]. split; [done|]. split; [done|].
  split; [done|].
  unfold renames. simpl. rewrite !filter_app. simpl.
  by rewrite !List.app_nil_r.
Qed.

(** Both directories exist: nothing is renamed and nothing is created. *)
Lemma start_rootPath_prefers_new st confDir prog :
  let oldPath := filepath_Join confDir ("tslib-" ++ prog) in
  let newPath := filepath_Join confDir ("tsnet-" ++ prog) in
  rootPath (srv st) = "" →
  os_UserConfigDir (world st) = Ok confDir →
  os_MkdirAll_fault (world st) = None →
  fs (world st) !! oldPath = Some EDir →
  fs (world st) !! newPath = Some EDir →
  ∃ st',
    start_rootPath prog st = Ret None st' ∧
    rootPath (srv st') = newPath ∧
    fs (world st') = fs (world st) ∧
    renames st' = renames st.
Proof.
  intros oldPath newPath Hroot Hconf Hmk Hold Hnew.
  run_os. rewrite Hroot. simpl. rewrite Hconf. fold oldPath newPath.
  rewrite Hold. simpl. rewrite Hnew. simpl. rewrite Hmk, Hnew. simpl.
  rewrite Hnew. simpl.
  eexists. split; [reflexivity|]. split; [done|]. split; [done|].
  unfold renames. simpl. rewrite !filter_app. simpl.
  by rewrite !List.app_nil_r.
Qed.

(** Neither directory exists: the new one is created. *)
Lemma start_rootPath_creates st confDir prog :
  let oldPath := filepath_Join confDir ("tslib-" ++ prog) in
  let newPath := filepath_Join confDir ("tsnet-" ++ prog) in
  rootPath (srv st) = "" →
  os_UserConfigDir (world st) = Ok confDir →
  os_MkdirAll_fault (world st) = None →
  fs (world st) !! oldPath = None →
  fs (world st) !! newPath = None →
  ∃ st',
    start_rootPath prog st = Ret None st' ∧
    rootPath (srv st') = newPath ∧
    fs (world st') = <[newPath := EDir]> (fs (world st)) ∧
    renames st' = renames st.
Proof.
  intros oldPath newPath Hroot Hconf Hmk Hold Hnew.
  run_os. rewrite Hroot. simpl. rewrite Hconf. fold oldPath newPath.
  rewrite Hold. simpl. rewrite Hmk, Hnew. simpl.
  repeat (rewrite lookup_insert_eq; simpl).
  eexists. split; [reflexivity|]. split; [done|]. split; [done|].
  unfold renames. simpl. rewrite !filter_app. simpl.
  by rewrite !List.app_nil_r.
Qed.

(** [Start] on a server whose once has not fired, with no directory
    configured and a store that passes the policy, goes through
    [start_rootPath]; what follows keeps the directories as that step
    left them. *)
Lemma Server_Start_via_rootPath st exe :
  initOnce (srv st) = false →
  Dir (srv st) = "" →
  store_policy_ok (srv st) = true →
  os_Executable (world st) = Ok exe →
  ∃ st_a,
    rootPath (srv st_a) = "" ∧
    world st_a = world st ∧
    ∀ st_b,
      start_rootPath
        (strings_TrimSuffix (strings_ToLower (filepath_Base exe)) ".exe")
        st_a = Ret None st_b →
      ∃ r st1, Server_Start st = Ret r st1 ∧ same_dirs st_b st1.
Proof.
  intros Hfresh Hdir Hpol Hexe.
  set (prog := strings_TrimSuffix (strings_ToLower (filepath_Base exe)) ".exe").
  set (st0 := on_srv (with_shutdownCtx (Some false)) st).
  set (st_h := on_srv (λ s, with_hostname (Hostname s) s) st0).
  set (st_p := if decide (hostname (srv st_h) = "")
               then on_srv (with_hostname prog) st_h else st_h).
  set (st_a := on_srv (λ s, with_rootPath (Dir s) s) st_p).
  assert (Hpa : store_policy_ok (srv st_a) = true).
  { unfold st_a, st_p. case_decide; exact Hpol. }
  exists st_a. split.
  { unfold st_a, st_p. case_decide; exact Hdir. }
  split.
  { unfold st_a, st_p. by case_decide. }
  intros st_b Eb.
  assert (Estart : start st0 =
            (start_netstack ?;; start_backend) st_b).
  { unfold start, bind at 1, get. simpl. rewrite Hexe. fold prog.
    unfold bind at 1, modify at 1. fold st_h.
    unfold bind at 1, gets at 1.
    assert (Hp : (if decide (hostname (srv st_h) = "")
                  then modify (on_srv (with_hostname prog)) else ret tt) st_h
                 = Ret tt st_p).
    { unfold st_p. by case_decide. }
    rewrite (bind_Ret _ _ _ _ _ Hp).
    unfold bind at 1, modify at 1. fold st_a.
    unfold or_return at 1.
    rewrite (bind_Ret _ _ _ _ _ (start_store_policy_decides st_a)), Hpa.
    unfold or_return at 1. by rewrite (bind_Ret _ _ _ _ _ Eb). }
  destruct (keeps_or_return same_dirs _ _
              start_netstack_same_dirs start_backend_same_dirs st_b)
    as (e & st_c & Ec & Hc).
  unfold Server_Start, initOnce_Do, bind at 1 2, gets at 1. rewrite Hfresh.
  unfold defer, doInit, bind at 1, modify at 1. cbv beta iota. fold st0.
  unfold bind at 1. rewrite Estart, Ec.
  destruct e as [err|]; unfold modify, ret, gets; simpl;
    eexists _, _; (split; [reflexivity|]); exact Hc.
Qed.

(** ** Listen, Accept and Close *)

(** C4. Listen on a malformed address fails with an AddressParseError and
    does not touch the state, so Start is not triggered. Otherwise Start
    runs; if it reports an error, Listen fails with that error. Otherwise,
    if the key (network, host, port) is registered, Listen fails with a
    DuplicateListenerError and the registry is as it was; if the key is
    free, Listen returns a new listener with a new open channel, filed
    under that key, every other key keeping its entry. *)
Theorem Listen_outcomes (st : State) (network addr : string) :
  wf st →
  match net_SplitHostPort addr with
  | Err err =>
      Server_Listen network addr st = Ret (Err (AddressParseError err)) st
  | Ok (h, pt) =>
      ∃ r st1,
        Server_Start st = Ret r st1 ∧
        match r with
        | Some err => Server_Listen network addr st = Ret (Err err) st1
        | None =>
            let k := ListenKey network h pt in
            match map_index (listeners (srv st)) k with
            | Some _ =>
                ∃ st2,
                  Server_Listen network addr st =
                    Ret (Err (DuplicateListenerError network addr)) st2 ∧
                  listeners (srv st2) = listeners (srv st) ∧
                  wf st2
            | None =>
                ∃ p ch st2,
                  Server_Listen network addr st = Ret (Ok p) st2 ∧
                  lns st !! p = None ∧
                  chans st !! ch = None ∧
                  lns st2 !! p = Some (Listener k addr ch) ∧
                  chans st2 !! ch = Some ChanOpen ∧
                  map_index (listeners (srv st2)) k = Some p ∧
                  (∀ k', k' ≠ k →
                     map_index (listeners (srv st2)) k' =
                     map_index (listeners (srv st)) k') ∧
                  wf st2
            end
        end
  end.
Proof.
  intros Hwf.
  destruct (net_SplitHostPort addr) as [[h pt]|err] eqn:Hsplit;
    [|by apply Server_Listen_bad_address].
  destruct (Server_Start_returns st)
    as (r & st1 & E & Hmu & Hls & Hlns & Hch & Hdone & Hr & _ & _).
  pose proof (Server_Start_wf _ _ _ Hwf E) as Hwf1.
  exists r, st1. split; [done|].
  assert (Hmu1 : mu (srv st1) = false) by apply Hwf1.
  rewrite (Server_Listen_after_Start _ _ _ _ _ _ _ Hsplit E Hmu1).
  destruct r as [err|]; [done|]. simpl. rewrite <- Hls.
  destruct (map_index (listeners (srv st1)) (ListenKey network h pt))
    as [q|] eqn:Hq.
  - eexists. split; [done|]. split; [|by apply built_state_wf].
    simpl. destruct st1 as [[] ? ? ?]; done.
  - exists (fresh (dom (lns st1))), (fresh (dom (chans st1))),
      (listened_state (ListenKey network h pt) addr st1).
    split; [done|]. rewrite <- Hlns, <- Hch.
    split; [apply fresh_ptr_unused|]. split; [apply fresh_chan_unused|].
    simpl. rewrite !lookup_insert_eq. do 3 (split; [done|]).
    split; [|by apply listened_state_wf].
    intros k' Hk'. rewrite lookup_insert_ne by done.
    destruct (listeners (srv st1)); simpl; [done|apply lookup_empty].
Qed.

(** C6. Closing a listener that is not the one filed under its key changes
    nothing. Closing the one that is filed removes its key and no other;
    either way the listener is not filed afterwards. After the removal,
    an Accept that was parked, and every later Accept, returns
    ClosedListenerError; and the key is free again: a further Listen on the
    same network, host and port returns a new listener filed under it. *)
Theorem listener_Close_frees_key (st : State) (p : ptr) (ln : listener) :
  wf st →
  lns st !! p = Some ln →
  ∃ st',
    listener_Close p st = Ret None st' ∧
    map_index (listeners (srv st')) (key ln) ≠ Some p ∧
    (map_index (listeners (srv st)) (key ln) ≠ Some p → st' = st) ∧
    (map_index (listeners (srv st)) (key ln) = Some p →
       (∀ k, map_index (listeners (srv st')) k =
             if decide (k = key ln) then None
             else map_index (listeners (srv st)) k) ∧
       listener_Accept p None st = Blocked st ∧
       (∀ n offers,
          Accept_n n p offers st' =
            Ret (replicate n (Err ClosedListenerError)) st') ∧
       (∀ a, net_SplitHostPort a = Ok (host (key ln), port (key ln)) →
          ∃ q st'',
            Server_Listen (network (key ln)) a st' = Ret (Ok q) st'' ∧
            q ≠ p ∧
            map_index (listeners (srv st'')) (key ln) = Some q)).
Proof.
  intros Hwf Hp.
  destruct (listener_Close_returns st p ln Hwf Hp)
    as (st' & E & Hwf' & Hlns & Hgone & Hsame & Hclosed).
  exists st'. split; [done|]. split; [done|]. split; [done|].
  intros Hreg. specialize (Hclosed Hreg).
  destruct (wf_registered st Hwf _ _ Hreg) as (ln' & Hp' & _ & Hopen).
  assert (ln' = ln) by congruence. subst ln'.
  assert (Hp2 : lns st' !! p = Some ln) by (by rewrite Hlns).
  assert (Hch2 : chans st' !! conn ln = Some ChanClosed).
  { subst st'. simpl. apply lookup_insert_eq. }
  split; [|split; [|split]].
  - intros k. subst st'. simpl. apply map_index_delete.
  - by rewrite (listener_Accept_open st p ln None Hp Hopen).
  - intros n offers. by eapply Accept_n_closed.
  - intros a Ha.
    destruct (wf_started st Hwf _ _ Hreg) as [Hon Herr].
    assert (Hon' : initOnce (srv st') = true).
    { subst st'. destruct st as [[] ? ? ?]; done. }
    assert (Herr' : initErr (srv st') = None).
    { subst st'. destruct st as [[] ? ? ?]; done. }
    destruct (Server_Start_returns st')
      as (r & st1 & E1 & _ & _ & _ & _ & _ & Hr & Hsame1 & _).
    specialize (Hsame1 Hon'). subst st1.
    assert (r = None) by congruence. subst r.
    rewrite (Server_Listen_after_Start _ _ _ _ _ _ _ Ha E1 (wf_unlocked _ Hwf')).
    assert (Hk : ListenKey (network (key ln)) (host (key ln)) (port (key ln))
                 = key ln) by (by destruct (key ln)).
    simpl. rewrite Hk.
    assert (Hfree : map_index (listeners (srv st')) (key ln) = None).
    { rewrite Hclosed. simpl. rewrite map_index_delete. by rewrite decide_True. }
    rewrite Herr', Hfree. eexists _, _. split; [done|]. split.
    + intros Hq. rewrite <- Hq, fresh_ptr_unused in Hp2. done.
    + simpl. apply lookup_insert_eq.
Qed.

Lemma Close_n_returns st p ln n :
  wf st →
  lns st !! p = Some ln →
  ∃ st',
    Close_n n p st = Ret (replicate n None) st' ∧
    wf st' ∧
    lns st' = lns st ∧
    (map_index (listeners (srv st)) (key ln) ≠ Some p → st' = st) ∧
    (map_index (listeners (srv st)) (key ln) = Some p →
       st' = match n with O => st | S _ => closed_state ln st end).
Proof.
  revert st. induction n as [|n IH]; intros st Hwf Hp.
  { exists st. do 3 (split; [done|]). by split. }
  destruct (listener_Close_returns st p ln Hwf Hp)
    as (st1 & E & Hwf1 & Hlns & Hgone & Hsame & Hclosed).
  assert (Hp1 : lns st1 !! p = Some ln) by (by rewrite Hlns).
  destruct (IH st1 Hwf1 Hp1) as (st2 & E2 & Hwf2 & Hlns2 & Hsame2 & _).
  specialize (Hsame2 Hgone). subst st2.
  exists st1. simpl.
  rewrite (bind_Ret _ _ _ _ _ E), (bind_Ret _ _ _ _ _ E2).
  do 3 (split; [done|]). done.
Qed.

Lemma listener_Close_no_error st p e st' :
  listener_Close p st ≠ Ret (Some e) st'.
Proof.
  unfold listener_Close, bind at 1, deref.
  destruct (lns st !! p) as [ln|]; [|done].
  unfold bind at 1, Lock. destruct (mu (srv st)); [done|].
  match goal with |- context [defer Unlock ?b] => set (body := b) end.
  unfold defer.
  destruct (body (on_srv (with_mu true) st)) as [r st1|st1|msg st1] eqn:Hb.
  - assert (r = None) as ->.
    { unfold body, bind at 1, gets at 1 in Hb. unfold bind at 1 in Hb.
      match type of Hb with
      | match ?x with _ => _ end = _ => destruct x; try done
      end.
      unfold ret in Hb. congruence. }
    by destruct (Unlock st1).
  - done.
  - by destruct (Unlock st1).
Qed.

(** ** Server.Close *)

Lemma Server_Close_reaches_lock st :
  handles_set st →
  mu (srv st) = false →
  Server_Close st =
    defer Unlock (
      ls <- gets listeners ;;
      for_each (range_listeners ls) (λ ln, listener_Close ln ;;; ret tt) ;;;
      modify (on_srv (with_listeners None)) ;;;
      ret None) (on_srv (with_mu true) (closing_state st)).
Proof.
  intros ([b Hctx] & [[] Hlb] & [[] Hmon] & [[] Hlal]) Hmu.
  unfold Server_Close.
  unfold bind at 1, shutdownCancel, bind at 1, gets at 1. rewrite Hctx.
  unfold bind at 1, modify at 1, emit, modify at 1.
  unfold bind at 1, handle_call at 1, bind at 1, gets at 1. simpl.
  rewrite Hlb. unfold emit, modify at 1.
  unfold bind at 1, handle_call at 1, bind at 1, gets at 1. simpl.
  rewrite Hmon. unfold emit, modify at 1.
  unfold bind at 1, handle_call at 1, bind at 1, gets at 1. simpl.
  rewrite Hlal. unfold emit, modify at 1.
  unfold bind at 1, Lock. simpl. by rewrite Hmu.
Qed.

Lemma Server_Close_without_handles st r st' :
  Server_Close st = Ret r st' → handles_set st.
Proof.
  unfold Server_Close, handles_set.
  unfold bind at 1, shutdownCancel, bind at 1, gets at 1.
  destruct (shutdownCtx (srv st)) as [b|] eqn:Hctx; [|done].
  unfold bind at 1, modify at 1, emit, modify at 1.
  unfold bind at 1, handle_call at 1, bind at 1, gets at 1. simpl.
  destruct (lb (srv st)) as [[]|] eqn:Hlb; [|done].
  unfold emit, modify at 1.
  unfold bind at 1, handle_call at 1, bind at 1, gets at 1. simpl.
  destruct (linkMon (srv st)) as [[]|] eqn:Hmon; [|done].
  unfold emit, modify at 1.
  unfold bind at 1, handle_call at 1, bind at 1, gets at 1. simpl.
  destruct (localAPIListener (srv st)) as [[]|] eqn:Hlal; [|done].
  intros _. eauto.
Qed.

(** With an entry in the registry, [Server.Close] takes the lock and then
    parks in the [listener.Close] of the first listener it visits, which
    asks for the same lock. Nothing has been removed or closed. *)
Lemma Server_Close_parks_at st p0 l :
  wf st →
  handles_set st →
  range_listeners (listeners (srv st)) = p0 :: l →
  Server_Close st = Blocked (on_srv (with_mu true) (closing_state st)).
Proof.
  intros Hwf Hst Hl.
  rewrite Server_Close_reaches_lock by (auto using wf_unlocked).
  unfold defer, bind at 1, gets at 1. simpl.
  destruct (listeners (srv st)) as [m|] eqn:Hls; [|done]. simpl in Hl.
  destruct (map_to_list m) as [|[k0 p0'] l'] eqn:Hm; [done|].
  simpl in Hl. injection Hl as -> <-.
  assert (Hk0 : m !! k0 = Some p0).
  { apply elem_of_map_to_list. rewrite Hm. left. }
  destruct (wf_registered st Hwf k0 p0) as (ln0 & Hp0 & _ & _).
  { by rewrite Hls. }
  simpl. rewrite Hm. simpl.
  unfold bind at 1 2 3.
  rewrite (listener_Close_locked _ p0 ln0); done.
Qed.

Lemma Server_Close_parks st k p :
  wf st →
  handles_set st →
  map_index (listeners (srv st)) k = Some p →
  Server_Close st = Blocked (on_srv (with_mu true) (closing_state st)).
Proof.
  intros Hwf Hst Hk.
  destruct (range_listeners (listeners (srv st))) as [|p0 l] eqn:Hl.
  - destruct (listeners (srv st)) as [m|]; [|done]. simpl in *.
    apply fmap_nil_inv, map_to_list_empty_iff in Hl. subst m.
    by rewrite lookup_empty in Hk.
  - by eapply Server_Close_parks_at.
Qed.

(** With an empty registry, [Server.Close] returns and leaves a nil map. *)
Lemma Server_Close_empty st :
  handles_set st →
  mu (srv st) = false →
  range_listeners (listeners (srv st)) = [] →
  Server_Close st =
    Ret None (on_srv (with_listeners None) (closing_state st)).
Proof.
  intros Hst Hmu Hempty.
  rewrite Server_Close_reaches_lock by done.
  unfold defer, bind at 1, gets at 1. simpl. rewrite Hempty. simpl.
  unfold bind, ret, modify, Unlock. simpl. f_equal.
  unfold on_srv, closing_state, on_world. simpl.
  destruct st as [[] ? ? ?]; simpl in *. by subst.
Qed.

(** When [Server.Close] returns, the registry was empty. *)
Lemma Server_Close_wf st r st' :
  wf st →
  Server_Close st = Ret r st' →
  r = None ∧ wf st' ∧ lns st' = lns st ∧ chans st' = chans st
  ∧ listeners (srv st') = None.
Proof.
  intros Hwf E. pose proof (Server_Close_without_handles _ _ _ E) as Hh.
  destruct (range_listeners (listeners (srv st))) as [|p0 l] eqn:Hl.
  - rewrite (Server_Close_empty st Hh (wf_unlocked _ Hwf) Hl) in E.
    injection E as <- <-. split; [done|]. split; [|done].
    destruct Hwf as [Hmu Hreg Halloc Hown Hst]. split; simpl; try done.
  - by rewrite (Server_Close_parks_at st p0 l Hwf Hh Hl) in E.
Qed.

(** ** forwardTCP *)

Lemma forwardTCP_unregistered st c port arrival tie :
  mu (srv st) = false →
  map_index (listeners (srv st)) (ListenKey "tcp" "" (fmt_Sprint port)) = None →
  forwardTCP c port arrival tie st = Ret 0%Z (emitted (EvConnClose c) st).
Proof.
  intros Hmu Hk. unfold forwardTCP, bind at 1, Lock. rewrite Hmu.
  unfold bind at 1, gets at 1. simpl. rewrite Hk.
  unfold bind at 1, Unlock. simpl. rewrite lock_unlock_id by done.
  reflexivity.
Qed.

Lemma forwardTCP_registered st c port arrival tie p ln :
  mu (srv st) = false →
  map_index (listeners (srv st)) (ListenKey "tcp" "" (fmt_Sprint port))
    = Some p →
  lns st !! p = Some ln →
  chans st !! conn ln = Some ChanOpen →
  forwardTCP c port arrival tie st =
    Ret (select_ready arrival time_Second tie).2
        (emitted (match (select_ready arrival time_Second tie).1 with
                  | SendCase => EvSend (conn ln) c
                  | TimerCase => EvConnClose c
                  end) st).
Proof.
  intros Hmu Hk Hp Hch. unfold forwardTCP, bind at 1, Lock. rewrite Hmu.
  unfold bind at 1, gets at 1. simpl. rewrite Hk.
  unfold bind at 1, Unlock. simpl. rewrite lock_unlock_id by done.
  unfold bind at 1, deref. rewrite Hp.
  unfold select_send_or_timer, bind at 1, get. rewrite Hch.
  by destruct (select_ready arrival time_Second tie) as [[] t].
Qed.

Lemma select_ready_bounds arrival d tie :
  (0 ≤ d)%Z →
  (0 ≤ (select_ready arrival d tie).2 ≤ d)%Z.
Proof.
  intros Hd. unfold select_ready. destruct arrival as [t|]; simpl; [|lia].
  destruct (Z.ltb_spec t d); simpl; [lia|].
  destruct (Z.ltb_spec d t); simpl; lia.
Qed.

Lemma select_ready_no_receiver arrival d tie :
  arrival = None ∨ (∃ t, arrival = Some t ∧ (d < t)%Z) →
  select_ready arrival d tie = (TimerCase, d).
Proof.
  intros [->|(t & -> & Ht)]; [done|]. unfold select_ready.
  destruct (Z.ltb_spec t d); [lia|]. destruct (Z.ltb_spec d t); [done|lia].
Qed.

Lemma select_ready_sent arrival d tie t' :
  select_ready arrival d tie = (SendCase, t') →
  ∃ t, arrival = Some t ∧ (t ≤ d)%Z.
Proof.
  unfold select_ready. destruct arrival as [t|]; [|done].
  destruct (Z.ltb_spec t d); [intros _; exists t; split; [done|lia]|].
  destruct (Z.ltb_spec d t); [done|]. intros _. exists t. split; [done|lia].
Qed.

(** ** Closed channels stay closed *)

#[global] Instance closed_stays_refl : Reflexive closed_stays.
Proof. by intros st. Qed.
#[global] Instance closed_stays_trans : Transitive closed_stays.
Proof. intros a b c [? ?] [? ?]. split; eauto. Qed.

Lemma always_ret R `{!Reflexive R} {A} (a : A) : always R (ret a).
Proof. intros st. simpl. reflexivity. Qed.

Lemma always_panic R `{!Reflexive R} {A} msg : always R (@panic A msg).
Proof. intros st. simpl. reflexivity. Qed.

Lemma always_get R `{!Reflexive R} : always R get.
Proof. intros st. simpl. reflexivity. Qed.

Lemma always_gets R `{!Reflexive R} {A} (f : Server → A) : always R (gets f).
Proof. intros st. simpl. reflexivity. Qed.

Lemma always_modify R (f : State → State) :
  (∀ st, R st (f st)) → always R (modify f).
Proof. intros Hf st. apply Hf. Qed.

Lemma always_bind R `{!Transitive R} {A B} (m : M A) (k : A → M B) :
  always R m → (∀ a, always R (k a)) → always R (bind m k).
Proof.
  intros Hm Hk st. specialize (Hm st). unfold bind.
  destruct (m st) as [a st1|st1|msg st1]; simpl in *; [|done|done].
  etrans; [exact Hm|apply Hk].
Qed.

Lemma always_defer R `{!Transitive R} {A} (f : M unit) (body : M A) :
  always R f → always R body → always R (defer f body).
Proof.
  intros Hf Hb st. specialize (Hb st). unfold defer.
  destruct (body st) as [a st1|st1|msg st1]; simpl in *; [|done|].
  - specialize (Hf st1). destruct (f st1); simpl in *; by etrans.
  - specialize (Hf st1). destruct (f st1); simpl in *; by etrans.
Qed.

Lemma keeps_always (R R' : State → State → Prop) {A} (m : M A) :
  (∀ st st', R st st' → R' st st') → keeps R m → always R' m.
Proof.
  intros HR Hm st. destruct (Hm st) as (a & st' & E & Hst).
  rewrite E. simpl. by apply HR.
Qed.

Lemma closed_stays_on_srv f st : closed_stays st (on_srv f st).
Proof. by split. Qed.

Lemma closed_stays_on_world f st : closed_stays st (on_world f st).
Proof. by split. Qed.

Lemma Lock_closed_stays : always closed_stays Lock.
Proof. intros st. unfold Lock. destruct (mu (srv st)); simpl; by split. Qed.

Lemma Unlock_closed_stays : always closed_stays Unlock.
Proof. intros st. unfold Unlock. destruct (mu (srv st)); simpl; by split. Qed.

Lemma make_chan_closed_stays : always closed_stays make_chan.
Proof.
  intros st. unfold make_chan. simpl. split; simpl; [|done].
  intros c Hc. rewrite lookup_insert_ne; [done|]. intros <-.
  by rewrite fresh_chan_unused in Hc.
Qed.

Lemma new_listener_closed_stays ln : always closed_stays (new_listener ln).
Proof.
  intros st. unfold new_listener. simpl. split; simpl; [done|].
  intros p lp Hp. rewrite lookup_insert_ne; [done|]. intros <-.
  by rewrite fresh_ptr_unused in Hp.
Qed.

Lemma close_chan_closed_stays c : always closed_stays (close_chan c).
Proof.
  intros st. unfold close_chan.
  destruct (chans st !! c) as [[]|] eqn:Hc; simpl; try done.
  split; simpl; [|done]. intros c' Hc'.
  destruct (decide (c = c')) as [->|]; [congruence|].
  by rewrite lookup_insert_ne.
Qed.

Lemma recv_chan_closed_stays c offer : always closed_stays (recv_chan c offer).
Proof.
  intros st. unfold recv_chan.
  destruct (chans st !! c) as [[]|]; [destruct offer| |]; by simpl.
Qed.

Lemma deref_closed_stays p : always closed_stays (deref p).
Proof. intros st. unfold deref. destruct (lns st !! p); by simpl. Qed.

Lemma emit_closed_stays e : always closed_stays (emit e).
Proof. apply always_modify. intros st. apply closed_stays_on_world. Qed.

Ltac always_walk :=
  repeat
    (intros;
     lazymatch goal with
     | |- always _ (ret _) => apply always_ret; apply _
     | |- always _ (panic _) => apply always_panic; apply _
     | |- always _ get => apply always_get; apply _
     | |- always _ (gets _) => apply always_gets; apply _
     | |- always _ Lock => apply Lock_closed_stays
     | |- always _ Unlock => apply Unlock_closed_stays
     | |- always _ make_chan => apply make_chan_closed_stays
     | |- always _ (new_listener _) => apply new_listener_closed_stays
     | |- always _ (close_chan _) => apply close_chan_closed_stays
     | |- always _ (recv_chan _ _) => apply recv_chan_closed_stays
     | |- always _ (deref _) => apply deref_closed_stays
     | |- always _ (emit _) => apply emit_closed_stays
     | |- always _ (bind _ _) => apply always_bind; [apply _ | |]
     | |- always _ (defer _ _) => apply always_defer; [apply _ | |]
     | |- always _ (modify (on_srv _)) =>
         apply always_modify; intros ?; apply closed_stays_on_srv
     | |- always _ (match _ with _ => _ end) => case_match
     end).

Lemma listener_Accept_closed_stays p offer :
  always closed_stays (listener_Accept p offer).
Proof. unfold listener_Accept. always_walk. Qed.

Lemma listener_Close_closed_stays p : always closed_stays (listener_Close p).
Proof. unfold listener_Close. always_walk. Qed.

Lemma Server_Start_closed_stays : always closed_stays Server_Start.
Proof.
  intros st.
  destruct (Server_Start_returns st)
    as (r & st1 & E & _ & _ & Hlns & Hch & _).
  rewrite E. simpl. split; intros ?; [rewrite Hch|rewrite Hlns]; auto.
Qed.

Lemma Server_Listen_closed_stays network addr :
  always closed_stays (Server_Listen network addr).
Proof.
  unfold Server_Listen.
  repeat
    (intros;
     lazymatch goal with
     | |- always _ Server_Start => apply Server_Start_closed_stays
     | |- always _ (let '(_, _) := ?x in _) => destruct x
     | |- _ => progress always_walk
     end).
Qed.

Lemma forwardTCP_closed_stays c port arrival tie :
  always closed_stays (forwardTCP c port arrival tie).
Proof.
  unfold forwardTCP, select_send_or_timer. always_walk.
Qed.

Lemma for_each_closed_stays {A} (l : list A) (body : A → M unit) :
  (∀ x, always closed_stays (body x)) →
  always closed_stays (for_each l body).
Proof. intros Hb. induction l as [|x l IH]; simpl; always_walk; auto. Qed.

Lemma Server_Close_closed_stays : always closed_stays Server_Close.
Proof.
  unfold Server_Close, shutdownCancel, handle_call.
  repeat
    (intros;
     lazymatch goal with
     | |- always _ (for_each _ _) => apply for_each_closed_stays
     | |- always _ (listener_Close _) => apply listener_Close_closed_stays
     | |- _ => progress always_walk
     end).
Qed.

Lemma run_api_closed_stays a st : closed_stays st (run_api a st).
Proof.
  destruct a; simpl.
  - apply Server_Start_closed_stays.
  - apply Server_Listen_closed_stays.
  - apply listener_Accept_closed_stays.
  - apply listener_Close_closed_stays.
  - apply forwardTCP_closed_stays.
  - apply Server_Close_closed_stays.
Qed.

Lemma run_apis_closed_stays l st : closed_stays st (run_apis l st).
Proof.
  revert st. induction l as [|a l IH]; intros st; simpl; [done|].
  etrans; [apply run_api_closed_stays|apply IH].
Qed.

(** C7. While the channel of a listener is open, Accept parks when no
    connection is offered and returns the offered connection when the
    dispatcher offers one. Once the channel is closed -- which is what
    Close does to a filed listener -- every Accept returns
    ClosedListenerError, whatever is offered, and leaves the state as it
    is, so that any number of calls in a row all fail without parking; and
    this stays so after any further calls of Start, Listen, Accept, Close,
    forwardTCP or the global Close, whatever their outcome. *)
Theorem Accept_until_delivery_or_close (st : State) (p : ptr) (ln : listener) :
  lns st !! p = Some ln →
  (chans st !! conn ln = Some ChanOpen →
     listener_Accept p None st = Blocked st ∧
     ∀ c, listener_Accept p (Some c) st = Ret (Ok c) st) ∧
  (chans st !! conn ln = Some ChanClosed →
     ∀ calls n offers,
       Accept_n n p offers (run_apis calls st) =
         Ret (replicate n (Err ClosedListenerError)) (run_apis calls st)) ∧
  (wf st → map_index (listeners (srv st)) (key ln) = Some p →
     ∃ st',
       listener_Close p st = Ret None st' ∧
       lns st' !! p = Some ln ∧
       chans st' !! conn ln = Some ChanClosed).
Proof.
  intros Hp. split; [|split].
  - intros Hopen. split.
    + by rewrite (listener_Accept_open st p ln None Hp Hopen).
    + intros c. by rewrite (listener_Accept_open st p ln (Some c) Hp Hopen).
  - intros Hclosed calls n offers.
    destruct (run_apis_closed_stays calls st) as [Hch Hlns].
    eapply Accept_n_closed; eauto.
  - intros Hwf Hreg.
    destruct (listener_Close_returns st p ln Hwf Hp)
      as (st' & E & _ & Hlns & _ & _ & Hclosed).
    exists st'. split; [done|]. split; [by rewrite Hlns|].
    rewrite (Hclosed Hreg). simpl. apply lookup_insert_eq.
Qed.

(** C10. The channel of a listener is closed at most once. From a
    well-formed state any number of Close calls on a listener all return
    nil: none panics and none returns an error. A call closes the channel
    only when the listener is the one filed under its key; a call on a
    listener that is not filed changes nothing. The same holds after a
    global Close that has returned. And in no state at all does listener
    Close return an error. *)
Theorem listener_Close_closes_once (st : State) (p : ptr) (ln : listener)
    (n : nat) :
  wf st →
  lns st !! p = Some ln →
  (∃ st', Close_n n p st = Ret (replicate n None) st' ∧ wf st') ∧
  (map_index (listeners (srv st)) (key ln) ≠ Some p →
     listener_Close p st = Ret None st) ∧
  (map_index (listeners (srv st)) (key ln) = Some p →
     Close_n (S n) p st = Ret (replicate (S n) None) (closed_state ln st)) ∧
  (∀ r stc, Server_Close st = Ret r stc →
     ∃ st', Close_n n p stc = Ret (replicate n None) st'
            ∧ chans st' = chans st) ∧
  (∀ st0 e st1, listener_Close p st0 ≠ Ret (Some e) st1).
Proof.
  intros Hwf Hp. split; [|split; [|split; [|split]]].
  - destruct (Close_n_returns st p ln n Hwf Hp) as (st' & E & Hwf' & _).
    by exists st'.
  - intros Hreg. eapply listener_Close_not_registrant; eauto using wf_unlocked.
  - intros Hreg.
    destruct (Close_n_returns st p ln (S n) Hwf Hp) as (st' & E & _ & _ & _ & Hc).
    by rewrite <- (Hc Hreg).
  - intros r stc E.
    destruct (Server_Close_wf st r stc Hwf E) as (_ & Hwfc & Hlns & Hch & Hnil).
    assert (Hpc : lns stc !! p = Some ln) by (by rewrite Hlns).
    destruct (Close_n_returns stc p ln n Hwfc Hpc) as (st' & E' & _ & _ & Hsame & _).
    exists st'. split; [done|]. rewrite Hsame; [done|]. by rewrite Hnil.
  - intros st0 e st1. apply listener_Close_no_error.
Qed.

(** ** Dispatch *)

Lemma nzhead_no_leading_zero d d' : Decimal.nzhead d ≠ Decimal.D0 d'.
Proof. induction d; simpl; congruence. Qed.

(** The decimal numeral of a port has no leading zero, except "0". *)
Lemma fmt_Sprint_no_leading_zero (port : uint16) (s : string) :
  fmt_Sprint port = String "0" s → s = "".
Proof.
  unfold fmt_Sprint. intros Hs.
  pose proof (DecimalN.Unsigned.to_of (N.to_uint port)) as Hn.
  rewrite DecimalN.Unsigned.of_to in Hn.
  destruct (N.to_uint port) as [|d| | | | | | | | |] eqn:Hd;
    simpl in Hs; try discriminate.
  injection Hs as <-.
  unfold Decimal.unorm in Hn. simpl in Hn.
  destruct (Decimal.nzhead d) eqn:Hz; try discriminate Hn.
  - by injection Hn as ->.
  - by apply nzhead_no_leading_zero in Hz.
Qed.

(** C5. A connection dispatched to a port with no listener filed under
    the key made of network tcp, the empty host and the decimal port is
    closed at once and is sent on no channel.
    A connection dispatched to a filed listener is offered on its channel
    for at most one second: the select ends within [time_Second]; either
    the connection is sent on that channel or it is closed; when no
    receiver takes it within the second it is closed after exactly
    [time_Second]; and it is sent only when a receiver came within the
    second. A receiver that comes before the second is over gets the
    connection: it is sent on the channel of that listener at the moment
    the receiver comes, and the Accept that meets it returns it. When the
    receiver and the timer are ready together the runtime picks either
    case. In every case nothing but that single event is left behind:
    unbuffered channels queue nothing. *)
Theorem forwardTCP_drops_or_offers (st : State) (c : Conn) (port : uint16)
    (arrival : option Z) (tie : bool) :
  wf st →
  match map_index (listeners (srv st))
          (ListenKey "tcp" "" (fmt_Sprint port)) with
  | None =>
      forwardTCP c port arrival tie st = Ret 0%Z (emitted (EvConnClose c) st)
  | Some p =>
      ∃ ln t ev,
        lns st !! p = Some ln ∧
        forwardTCP c port arrival tie st = Ret t (emitted ev st) ∧
        (0 ≤ t ≤ time_Second)%Z ∧
        (ev = EvSend (conn ln) c ∨ ev = EvConnClose c) ∧
        (arrival = None ∨ (∃ w, arrival = Some w ∧ (time_Second < w)%Z) →
           ev = EvConnClose c ∧ t = time_Second) ∧
        (ev = EvSend (conn ln) c →
           ∃ w, arrival = Some w ∧ (w ≤ time_Second)%Z) ∧
        (∀ w, arrival = Some w → (w < time_Second)%Z →
           ev = EvSend (conn ln) c ∧ t = Z.max 0 w ∧
           listener_Accept p (Some c) (emitted ev st)
             = Ret (Ok c) (emitted ev st)) ∧
        (arrival = Some time_Second →
           ev = (if tie then EvSend (conn ln) c else EvConnClose c) ∧
           t = time_Second)
  end.
Proof.
  intros Hwf.
  destruct (map_index _ _) as [p|] eqn:Hk;
    [|by apply forwardTCP_unregistered; [apply Hwf|]].
  destruct (wf_registered st Hwf _ _ Hk) as (ln & Hp & _ & Hopen).
  pose proof (forwardTCP_registered st c port arrival tie p ln
                (wf_unlocked _ Hwf) Hk Hp Hopen) as E.
  exists ln. eexists _, _. split; [done|]. split; [exact E|].
  split; [by apply select_ready_bounds|].
  destruct (select_ready arrival time_Second tie) as [cs t] eqn:Hsel. simpl.
  split; [destruct cs; auto|]. split; [|split; [|split]].
  - intros Hun. rewrite (select_ready_no_receiver _ _ tie Hun) in Hsel.
    by injection Hsel as <- <-.
  - destruct cs; [|done]. intros _. by eapply select_ready_sent.
  - intros w -> Hw. unfold select_ready in Hsel.
    destruct (Z.ltb_spec w time_Second); [|lia].
    injection Hsel as <- <-. split; [done|]. split; [done|].
    exact (listener_Accept_open (emitted _ _) _ _ (Some c) Hp Hopen).
  - intros ->. unfold select_ready in Hsel.
    rewrite Z.ltb_irrefl in Hsel. injection Hsel as <- <-.
    split; [by destruct tie|done].
Qed.

(** C9. A dispatch on port [port] sends only on the channel of the
    listener filed under the key made of network tcp, the empty host and
    the decimal numeral of [port]. A listener [q] whose
    key is anything else -- another network, a host that is not empty, a
    port text that is not the decimal numeral -- is sent nothing. A port
    text with a leading zero, such as "0080", is the numeral of no port. *)
Theorem forwardTCP_exact_key (st : State) (c : Conn) (port : uint16)
    (arrival : option Z) (tie : bool) (q : ptr) (lq : listener) :
  wf st →
  lns st !! q = Some lq →
  key lq ≠ ListenKey "tcp" "" (fmt_Sprint port) →
  (∃ t ev,
     forwardTCP c port arrival tie st = Ret t (emitted ev st) ∧
     (∀ c', ev ≠ EvSend (conn lq) c') ∧
     (∀ ch c', ev = EvSend ch c' →
        ∃ p lp,
          map_index (listeners (srv st))
            (ListenKey "tcp" "" (fmt_Sprint port)) = Some p ∧
          lns st !! p = Some lp ∧
          key lp = ListenKey "tcp" "" (fmt_Sprint port) ∧
          ch = conn lp ∧ c' = c)) ∧
  (∀ n h d pt, ListenKey n h (String "0" (String d pt))
               ≠ ListenKey "tcp" "" (fmt_Sprint port)).
Proof.
  intros Hwf Hq Hne. split.
  - destruct (map_index (listeners (srv st))
                (ListenKey "tcp" "" (fmt_Sprint port))) as [p|] eqn:Hk.
    + destruct (wf_registered st Hwf _ _ Hk) as (lp & Hp & Hkey & Hopen).
      pose proof (forwardTCP_registered st c port arrival tie p lp
                    (wf_unlocked _ Hwf) Hk Hp Hopen) as E.
      eexists _, _. split; [exact E|].
      split.
      * intros c'. destruct (select_ready arrival time_Second tie).1; [|done].
        intros [= Hc _]. assert (p = q) by (eapply wf_chan_own; eauto).
        subst q. congruence.
      * intros ch c'.
        destruct (select_ready arrival time_Second tie).1; [|done].
        intros [= <- <-]. by exists p, lp.
    + pose proof (forwardTCP_unregistered st c port arrival tie
                    (wf_unlocked _ Hwf) Hk) as E.
      eexists _, _. split; [exact E|].
      split; [done|]. intros ch c' [=].
  - intros n h d pt [= _ _ Hs]. symmetry in Hs.
    by apply fmt_Sprint_no_leading_zero in Hs.
Qed.

(** ** Directory migration *)

(** C8. Start on a server with no directory configured resolves the state
    directory under the user configuration directory. When only the legacy
    directory exists, it is renamed to the new name by the single rename
    that Start performs, and the new directory is used. When both exist,
    the directory tree is left as it was, nothing is renamed, and the new
    directory is used. When neither exists, the new directory is created
    and nothing is renamed. Further Start calls return the latched result
    and change nothing, so the rename happens once. *)
Theorem Start_resolves_state_dir (st : State) (exe confDir : string) :
  let prog :=
    strings_TrimSuffix (strings_ToLower (filepath_Base exe)) ".exe" in
  let oldPath := filepath_Join confDir ("tslib-" ++ prog) in
  let newPath := filepath_Join confDir ("tsnet-" ++ prog) in
  initOnce (srv st) = false →
  Dir (srv st) = "" →
  store_policy_ok (srv st) = true →
  os_Executable (world st) = Ok exe →
  os_UserConfigDir (world st) = Ok confDir →
  os_Rename_fault (world st) = None →
  os_MkdirAll_fault (world st) = None →
  oldPath ≠ newPath →
  ∃ r st1,
    Server_Start st = Ret r st1 ∧
    (∀ n, Start_n n st1 = Ret (replicate n r) st1) ∧
    (fs (world st) !! oldPath = Some EDir →
     fs (world st) !! newPath = None →
       rootPath (srv st1) = newPath ∧
       fs (world st1) !! oldPath = None ∧
       fs (world st1) !! newPath = Some EDir ∧
       (∀ path, path ≠ oldPath → path ≠ newPath →
          fs (world st1) !! path = fs (world st) !! path) ∧
       renames st1 = (renames st ++ [EvRename oldPath newPath])%list) ∧
    (fs (world st) !! oldPath = Some EDir →
     fs (world st) !! newPath = Some EDir →
       rootPath (srv st1) = newPath ∧
       fs (world st1) = fs (world st) ∧
       renames st1 = renames st) ∧
    (fs (world st) !! oldPath = None →
     fs (world st) !! newPath = None →
       rootPath (srv st1) = newPath ∧
       fs (world st1) = <[newPath := EDir]> (fs (world st)) ∧
       renames st1 = renames st).
Proof.
  intros prog oldPath newPath Hfresh Hdir Hpol Hexe Hconf Hren Hmk Hne.
  destruct (Server_Start_returns st)
    as (r & st1 & E & _ & _ & _ & _ & Hdone & Hr & _ & _).
  exists r, st1. split; [done|]. split.
  { intros n. rewrite <- Hr. by apply Start_n_latched. }
  destruct (Server_Start_via_rootPath st exe Hfresh Hdir Hpol Hexe)
    as (st_a & Hroot & Hw & Hvia).
  fold prog in Hvia.
  assert (Hrs : renames st = renames st_a) by (unfold renames; by rewrite Hw).
  rewrite Hrs. rewrite <- Hw in Hexe, Hconf, Hren, Hmk |- *.
  split; [|split]; intros Hold Hnew.
  - destruct (start_rootPath_migrates st_a confDir prog
                Hroot Hconf Hren Hmk Hold Hnew)
      as (st_b & Eb & _ & Hrp & Hfs & Hrn).
    destruct (Hvia st_b Eb) as (r' & st1' & E' & Hfs' & Hrp' & Hrn').
    rewrite E in E'. injection E' as <- <-.
    rewrite Hrp', Hfs', Hrn', Hrp, Hfs, Hrn. fold oldPath newPath.
    split; [done|]. split.
    { rewrite lookup_insert_ne by done. apply lookup_delete_eq. }
    split; [apply lookup_insert_eq|]. split; [|done].
    intros path H1 H2.
    rewrite lookup_insert_ne by done. by rewrite lookup_delete_ne.
  - destruct (start_rootPath_prefers_new st_a confDir prog
                Hroot Hconf Hmk Hold Hnew)
      as (st_b & Eb & Hrp & Hfs & Hrn).
    destruct (Hvia st_b Eb) as (r' & st1' & E' & Hfs' & Hrp' & Hrn').
    rewrite E in E'. injection E' as <- <-.
    by rewrite Hrp', Hfs', Hrn', Hrp, Hfs, Hrn.
  - destruct (start_rootPath_creates st_a confDir prog
                Hroot Hconf Hmk Hold Hnew)
      as (st_b & Eb & Hrp & Hfs & Hrn).
    destruct (Hvia st_b Eb) as (r' & st1' & E' & Hfs' & Hrp' & Hrn').
    rewrite E in E'. injection E' as <- <-.
    by rewrite Hrp', Hfs', Hrn', Hrp, Hfs, Hrn.
Qed.

(** ** Well-formed states are the ones that are reached *)

Lemma init_state_wf s w :
  mu s = false → listeners s = None → wf (init_state s w).
Proof.
  intros Hmu Hls. split; simpl; try done.
  - intros k p. by rewrite Hls.
  - intros k p. by rewrite Hls.
Qed.

Lemma Server_Listen_wf st network addr :
  wf st → wf (state_of (Server_Listen network addr st)).
Proof.
  intros Hwf.
  destruct (net_SplitHostPort addr) as [[h pt]|err] eqn:Hsplit.
  - destruct (Server_Start_returns st)
      as (r & st1 & E & _ & _ & _ & _ & Hdone & Hr & _ & _).
    pose proof (Server_Start_wf _ _ _ Hwf E) as Hwf1.
    rewrite (Server_Listen_after_Start _ _ _ _ _ _ _ Hsplit E
               (wf_unlocked _ Hwf1)).
    destruct r as [err|]; [done|]. simpl.
    destruct (map_index _ _) eqn:Hk; simpl.
    + by apply built_state_wf.
    + by apply listened_state_wf.
  - by rewrite (Server_Listen_bad_address _ _ _ _ Hsplit).
Qed.

Lemma emitted_wf e st : wf st → wf (emitted e st).
Proof. intros [? ? ? ? ?]. by split. Qed.

Lemma forwardTCP_wf st c port arrival tie :
  wf st → wf (state_of (forwardTCP c port arrival tie st)).
Proof.
  intros Hwf.
  destruct (map_index (listeners (srv st))
              (ListenKey "tcp" "" (fmt_Sprint port))) as [p|] eqn:Hk.
  - destruct (wf_registered st Hwf _ _ Hk) as (ln & Hp & _ & Hopen).
    rewrite (forwardTCP_registered st c port arrival tie p ln
               (wf_unlocked _ Hwf) Hk Hp Hopen).
    by apply emitted_wf.
  - rewrite (forwardTCP_unregistered st c port arrival tie
               (wf_unlocked _ Hwf) Hk).
    by apply emitted_wf.
Qed.

Lemma listener_Accept_same_state st p offer :
  state_of (listener_Accept p offer st) = st.
Proof.
  unfold listener_Accept, bind, deref, recv_chan.
  destruct (lns st !! p) as [ln|]; [|done].
  destruct (chans st !! conn ln) as [[]|]; [destruct offer| |]; done.
Qed.

Lemma run_api_wf a st : wf st → api_returns a st → wf (run_api a st).
Proof.
  intros Hwf Hret. destruct a; simpl in *.
  - destruct (Server_Start st) as [r st1| |] eqn:E; [|done|done].
    by eapply Server_Start_wf.
  - by apply Server_Listen_wf.
  - by rewrite listener_Accept_same_state.
  - destruct (lns st !! p) as [ln|] eqn:Hp.
    + destruct (listener_Close_returns st p ln Hwf Hp) as (st' & E & Hwf' & _).
      by rewrite E.
    + unfold listener_Close, bind, deref in *. by rewrite Hp in *.
  - by apply forwardTCP_wf.
  - destruct (Server_Close st) as [r st1| |] eqn:E; [|done|done].
    by destruct (Server_Close_wf st r st1 Hwf E) as (_ & ? & _).
Qed.

(** Every state a program sees between calls is well-formed. *)
Lemma reachable_wf st : reachable st → wf st.
Proof.
  induction 1 as [s w Hmu Hls|a st _ IH Hret].
  - by apply init_state_wf.
  - by apply run_api_wf.
Qed.

End TsnetFrames.

Lemma demo_state_wf : wf demo_state.
Proof. by apply init_state_wf. Qed.

Lemma listening_state_wf : wf listening_state.
Proof. apply Server_Listen_wf, demo_state_wf. Qed.

Lemma listening_0080_state_wf : wf listening_0080_state.
Proof. apply Server_Listen_wf, demo_state_wf. Qed.

(** ** The store policy and the global Close on concrete servers *)

(** C1. The policy of [start] is inverted. Whatever the directory, the
    hostname and the world, the check of lines 139-143 lets a server through
    that is not ephemeral and is given an in-memory store, and answers the
    "in-memory store" error to one that is not ephemeral and is given a
    file store. On the first, Start succeeds and the link monitor, the
    engine and the netstack are all constructed; on the second, Start fails
    with that error before any collaborator is called. *)
Theorem start_store_policy_is_inverted :
  (∀ dir hn w,
     start_store_policy
       (init_state (new_Server dir (Some mem_Store) hn false) w)
     = Ret None (init_state (new_Server dir (Some mem_Store) hn false) w)) ∧
  (∀ dir hn w path,
     start_store_policy
       (init_state (new_Server dir (Some (FileStore path)) hn false) w)
     = Ret (Some ConfigurationError)
         (init_state (new_Server dir (Some (FileStore path)) hn false) w)) ∧
  (∃ st',
     Server_Start mem_store_state = Ret None st' ∧
     EvMonitorNew ∈ trace (world st') ∧
     EvNewUserspaceEngine ∈ trace (world st') ∧
     EvNetstackCreate ∈ trace (world st')) ∧
  (∃ st',
     Server_Start file_store_state
       = Ret (Some (StartupError ConfigurationError)) st' ∧
     trace (world st') = []).
Proof.
  split; [done|]. split; [done|]. split.
  - eexists. split; [vm_compute; reflexivity|]. simpl.
    repeat split; apply list_elem_of_In; simpl; tauto.
  - eexists. split; vm_compute; reflexivity.
Qed.

(** C2. With one listener registered, the global Close does not return.
    It cancels the shutdown context and shuts the collaborators down, takes
    the registry lock, and parks in the Close of the listener, which asks
    for the lock that is already held. The listener is still filed, its
    channel is still open, so an Accept on it still parks instead of
    failing with ClosedListenerError. The login-URL loop, for its part,
    does stop: its next round sees the cancelled context and returns. *)
Theorem Server_Close_parks_with_a_listener :
  Server_Listen "tcp" ":80" demo_state = Ret (Ok 0) listening_state ∧
  ∃ st',
    Server_Close listening_state = Blocked st' ∧
    shutdownCtx (srv st') = Some true ∧
    mu (srv st') = true ∧
    map_index (listeners (srv st')) (ListenKey "tcp" "" "80") = Some 0 ∧
    lns st' !! 0 = Some ln80 ∧
    chans st' !! conn ln80 = Some ChanOpen ∧
    listener_Accept 0 None st' = Blocked st' ∧
    printAuthURLLoop 1 st' = Ret true st'.
Proof.
  split; [vm_compute; reflexivity|].
  eexists. split; [vm_compute; reflexivity|].
  repeat split; vm_compute; reflexivity.
Qed.


(** ** The theorems at concrete servers *)

Lemma Listen_outcomes_witness :
  wf demo_state ∧
  ∃ p st2,
    Server_Listen "tcp" ":80" demo_state = Ret (Ok p) st2 ∧
    map_index (listeners (srv st2)) (ListenKey "tcp" "" "80") = Some p ∧
    wf st2.
Proof.
  split; [exact demo_state_wf|].
  pose proof (Listen_outcomes demo_state "tcp" ":80" demo_state_wf) as H.
  hnf in H. destruct H as (r & st1 & E & H).
  assert (Hr : r = None).
  { vm_compute in E. by injection E as <- _. }
  subst r. hnf in H.
  destruct H as (p & ch & st2 & E2 & _ & _ & _ & _ & Hk & _ & Hwf).
  exists p, st2. split; [exact E2|]. split; [exact Hk|exact Hwf].
Defined.

Lemma listening_state_ln80 : lns listening_state !! 0 = Some ln80.
Proof. vm_compute. reflexivity. Qed.

Lemma listening_state_registered :
  map_index (listeners (srv listening_state)) (key ln80) = Some 0.
Proof. vm_compute. reflexivity. Qed.

Lemma forwardTCP_drops_or_offers_witness :
  wf listening_state ∧
  lns listening_state !! 0 = Some ln80 ∧
  forwardTCP 7 80%N (Some 5%Z) true listening_state
    = Ret 5%Z (emitted (EvSend (conn ln80) 7) listening_state) ∧
  listener_Accept 0 (Some 7) (emitted (EvSend (conn ln80) 7) listening_state)
    = Ret (Ok 7) (emitted (EvSend (conn ln80) 7) listening_state).
Proof.
  split; [exact listening_state_wf|].
  split; [exact listening_state_ln80|].
  pose proof (forwardTCP_drops_or_offers listening_state 7 80%N (Some 5%Z)
                true listening_state_wf) as H.
  assert (Hk : map_index (listeners (srv listening_state))
                 (ListenKey "tcp" "" (fmt_Sprint 80%N)) = Some 0)
    by (vm_compute; reflexivity).
  rewrite Hk in H.
  destruct H as (ln & t & ev & Hp & E & _ & _ & _ & _ & Hsend & _).
  assert (Some ln = Some ln80) as [= ->]
    by (rewrite <- Hp; exact listening_state_ln80).
  destruct (Hsend 5%Z eq_refl eq_refl) as (-> & -> & Hacc).
  split; [exact E|exact Hacc].
Defined.

Lemma listener_Close_frees_key_witness :
  wf listening_state ∧
  lns listening_state !! 0 = Some ln80 ∧
  ∃ st',
    listener_Close 0 listening_state = Ret None st' ∧
    map_index (listeners (srv st')) (key ln80) = None.
Proof.
  split; [exact listening_state_wf|]. split; [exact listening_state_ln80|].
  destruct (listener_Close_frees_key listening_state 0 ln80
              listening_state_wf listening_state_ln80)
    as (st' & E & _ & _ & H).
  destruct (H listening_state_registered) as (Hk & _).
  exists st'. split; [exact E|].
  rewrite (Hk (key ln80)). apply decide_True. reflexivity.
Defined.

Lemma Accept_until_delivery_or_close_witness :
  lns listening_state !! 0 = Some ln80 ∧
  listener_Accept 0 None listening_state = Blocked listening_state ∧
  listener_Accept 0 (Some 7) listening_state = Ret (Ok 7) listening_state.
Proof.
  split; [exact listening_state_ln80|].
  destruct (Accept_until_delivery_or_close listening_state 0 ln80
              listening_state_ln80) as (Hopen & _ & _).
  assert (Hch : chans listening_state !! conn ln80 = Some ChanOpen)
    by (vm_compute; reflexivity).
  destruct (Hopen Hch) as (Hpark & Hget).
  split; [exact Hpark|exact (Hget 7)].
Defined.

Lemma listener_Close_closes_once_witness :
  wf listening_state ∧
  lns listening_state !! 0 = Some ln80 ∧
  ∃ st',
    Close_n 3 0 listening_state = Ret [None; None; None] st' ∧ wf st'.
Proof.
  split; [exact listening_state_wf|]. split; [exact listening_state_ln80|].
  destruct (listener_Close_closes_once listening_state 0 ln80 3
              listening_state_wf listening_state_ln80) as (H & _).
  exact H.
Defined.

Lemma listening_0080_state_ln0080 :
  lns listening_0080_state !! 0 = Some ln0080.
Proof. vm_compute. reflexivity. Qed.

Lemma ln0080_off_key :
  key ln0080 ≠ ListenKey "tcp" "" (fmt_Sprint 80%N).
Proof. vm_compute. discriminate. Qed.

Lemma forwardTCP_exact_key_witness :
  Server_Listen "tcp" ":0080" demo_state = Ret (Ok 0) listening_0080_state ∧
  wf listening_0080_state ∧
  lns listening_0080_state !! 0 = Some ln0080 ∧
  key ln0080 ≠ ListenKey "tcp" "" (fmt_Sprint 80%N) ∧
  ∃ t ev,
    forwardTCP 7 80%N (Some 5%Z) true listening_0080_state
      = Ret t (emitted ev listening_0080_state) ∧
    ∀ c', ev ≠ EvSend (conn ln0080) c'.
Proof.
  split; [vm_compute; reflexivity|].
  split; [exact listening_0080_state_wf|].
  split; [exact listening_0080_state_ln0080|].
  split; [exact ln0080_off_key|].
  destruct (forwardTCP_exact_key listening_0080_state 7 80%N (Some 5%Z) true
              0 ln0080 listening_0080_state_wf listening_0080_state_ln0080
              ln0080_off_key) as ((t & ev & E & Hno & _) & _).
  exists t, ev. split; [exact E|exact Hno].
Defined.

Lemma Start_resolves_state_dir_witness :
  ∃ r st1,
    Server_Start legacy_state = Ret r st1 ∧
    rootPath (srv st1) = "/home/u/.config/tsnet-app" ∧
    fs (world st1) !! "/home/u/.config/tslib-app" = None ∧
    fs (world st1) !! "/home/u/.config/tsnet-app" = Some EDir ∧
    renames st1 =
      [EvRename "/home/u/.config/tslib-app" "/home/u/.config/tsnet-app"].
Proof.
  destruct (Start_resolves_state_dir legacy_state "/usr/local/bin/App.exe"
              "/home/u/.config")
    as (r & st1 & E & _ & Hmig & _ & _);
    [reflexivity | reflexivity | reflexivity | reflexivity | reflexivity
    | reflexivity | reflexivity | vm_compute; discriminate |].
  destruct Hmig as (Hrp & Hold & Hnew & _ & Hrn);
    [vm_compute; reflexivity | vm_compute; reflexivity|].
  exists r, st1. split; [exact E|]. split; [exact Hrp|].
  split; [exact Hold|]. split; [exact Hnew|exact Hrn].
Defined.

(** * Further properties of the code *)

Section Further.
Context `{GoLib}.

Ltac frame_side :=
  try match goal with
      | |- Reflexive _ => apply _
      | |- Transitive _ => apply _
      end.

(** ** getTSNetDir *)

Lemma os_IsNotExist_ErrNotExist path :
  os_IsNotExist (Some (external "fs.ErrNotExist" path)) = true.
Proof. reflexivity. Qed.

#[local] Arguments os_IsNotExist : simpl never.

Ltac run_dir :=
  unfold getTSNetDir, os_Lstat, os_Rename, bind, gets, get, modify, emit,
    ret, lstat, fs_ErrNotExist; simpl.


Lemma getTSNetDir_returns (st : State) (confDir prog : string) :
  let oldPath := filepath_Join confDir ("tslib-" ++ prog) in
  let newPath := filepath_Join confDir ("tsnet-" ++ prog) in
  ∃ r st',
    getTSNetDir confDir prog st = Ret r st' ∧
    srv st' = srv st ∧ lns st' = lns st ∧ chans st' = chans st ∧
    (∀ d, r = Ok d → d = newPath) ∧
    (∀ e, r = Err e → fs (world st') = fs (world st)) ∧
    (fs (world st') = fs (world st) ∨
     (fs (world st) !! oldPath = Some EDir ∧
      fs (world st) !! newPath ≠ Some EDir ∧
      r = Ok newPath ∧
      fs (world st') = <[newPath := EDir]> (delete oldPath (fs (world st))))).
Proof.
  intros oldPath newPath. run_dir. fold oldPath newPath.
  clearbody oldPath newPath.
  destruct (fs (world st) !! oldPath) as [[|mode|e]|] eqn:Hold; simpl.
  - destruct (fs (world st) !! newPath) as [[|mode'|e']|] eqn:Hnew; simpl.
    + eexists _, _. split; [reflexivity|]. simpl.
      do 3 (split; [done|]). split; [by intros d [= <-]|].
      split; [done|by left].
    + destruct (os_Rename_fault (world st)) as [e|] eqn:Hren; simpl.
      * eexists _, _. split; [reflexivity|]. simpl.
        do 3 (split; [done|]). split; [done|]. split; [done|by left].
      * rewrite Hold. simpl. eexists _, _. split; [reflexivity|]. simpl.
        do 3 (split; [done|]). split; [by intros d [= <-]|].
        split; [done|]. right. done.
    + destruct (os_IsNotExist (Some e')) eqn:Hne; simpl.
      * destruct (os_Rename_fault (world st)) as [e|] eqn:Hren; simpl.
        -- eexists _, _. split; [reflexivity|]. simpl.
           do 3 (split; [done|]). split; [done|]. split; [done|by left].
        -- rewrite Hold. simpl. eexists _, _. split; [reflexivity|]. simpl.
           do 3 (split; [done|]). split; [by intros d [= <-]|].
           split; [done|]. right. done.
      * eexists _, _. split; [reflexivity|]. simpl.
        do 3 (split; [done|]). split; [done|]. split; [done|by left].
    + rewrite ?os_IsNotExist_ErrNotExist. simpl.
      destruct (os_Rename_fault (world st)) as [e|] eqn:Hren; simpl.
      * eexists _, _. split; [reflexivity|]. simpl.
        do 3 (split; [done|]). split; [done|]. split; [done|by left].
      * rewrite Hold. simpl. eexists _, _. split; [reflexivity|]. simpl.
        do 3 (split; [done|]). split; [by intros d [= <-]|].
        split; [done|]. right. done.
  - eexists _, _. split; [reflexivity|]. simpl.
    do 3 (split; [done|]). split; [done|]. split; [done|by left].
  - destruct (os_IsNotExist (Some e)) eqn:Hne; simpl.
    + eexists _, _. split; [reflexivity|]. simpl.
      do 3 (split; [done|]). split; [by intros d [= <-]|].
      split; [done|by left].
    + eexists _, _. split; [reflexivity|]. simpl.
      do 3 (split; [done|]). split; [done|]. split; [done|by left].
  - rewrite ?os_IsNotExist_ErrNotExist. simpl.
    eexists _, _. split; [reflexivity|]. simpl.
    do 3 (split; [done|]). split; [by intros d [= <-]|].
    split; [done|by left].
Qed.

(** X1. getTSNetDir always returns, and touches nothing but the directory
    tree and the trace. When it succeeds its result is the tsnet- path,
    never the legacy one. When it fails the directory tree is as it was.
    The only change it ever makes to the tree is to move the legacy
    directory to the new path, and only when the new path is not already a
    directory; nothing is created. *)
Theorem getTSNetDir_outcomes (st : State) (confDir prog : string) :
  let oldPath := filepath_Join confDir ("tslib-" ++ prog) in
  let newPath := filepath_Join confDir ("tsnet-" ++ prog) in
  ∃ r st',
    getTSNetDir confDir prog st = Ret r st' ∧
    srv st' = srv st ∧ lns st' = lns st ∧ chans st' = chans st ∧
    (∀ d, r = Ok d → d = newPath) ∧
    (∀ e, r = Err e → fs (world st') = fs (world st)) ∧
    (fs (world st') = fs (world st) ∨
     (fs (world st) !! oldPath = Some EDir ∧
      fs (world st) !! newPath ≠ Some EDir ∧
      r = Ok newPath ∧
      fs (world st') = <[newPath := EDir]> (delete oldPath (fs (world st))))).
Proof. exact (getTSNetDir_returns st confDir prog). Qed.

Lemma getTSNetDir_old_absent st confDir prog :
  let oldPath := filepath_Join confDir ("tslib-" ++ prog) in
  let newPath := filepath_Join confDir ("tsnet-" ++ prog) in
  os_IsNotExist (err_of (lstat (world st) oldPath)) = true →
  getTSNetDir confDir prog st = Ret (Ok newPath) (emitted (EvLstat oldPath) st).
Proof.
  intros oldPath newPath Habs.
  unfold lstat, fs_ErrNotExist in Habs. run_dir. fold oldPath newPath.
  by rewrite Habs.
Qed.

Lemma getTSNetDir_both_exist st confDir prog :
  let oldPath := filepath_Join confDir ("tslib-" ++ prog) in
  let newPath := filepath_Join confDir ("tsnet-" ++ prog) in
  fs (world st) !! oldPath = Some EDir →
  fs (world st) !! newPath = Some EDir →
  getTSNetDir confDir prog st =
    Ret (Ok newPath) (emitted (EvLstat newPath) (emitted (EvLstat oldPath) st)).
Proof.
  intros oldPath newPath Hold Hnew. run_dir. fold oldPath newPath.
  rewrite Hold. simpl. by rewrite Hnew.
Qed.

Lemma getTSNetDir_Ok_inv st confDir prog d st' :
  let oldPath := filepath_Join confDir ("tslib-" ++ prog) in
  let newPath := filepath_Join confDir ("tsnet-" ++ prog) in
  getTSNetDir confDir prog st = Ret (Ok d) st' →
  (os_IsNotExist (err_of (lstat (world st) oldPath)) = true ∧
   fs (world st') = fs (world st) ∧ renames st' = renames st) ∨
  (fs (world st) !! oldPath = Some EDir ∧
   fs (world st) !! newPath = Some EDir ∧
   fs (world st') = fs (world st) ∧ renames st' = renames st) ∨
  (fs (world st) !! oldPath = Some EDir ∧
   fs (world st') = <[newPath := EDir]> (delete oldPath (fs (world st))) ∧
   renames st' = (renames st ++ [EvRename oldPath newPath])%list).
Proof.
  intros oldPath newPath.
  assert (Hr1 : ∀ e1 s, is_rename e1 = false →
            renames (on_world (λ w, with_trace (trace w ++ [e1]) w) s)
            = renames s) by (intros; by apply renames_emit).
  assert (Hr2 : ∀ s,
            renames (on_world (λ w, with_trace
                       (trace w ++ [EvRename oldPath newPath]) w) s)
            = (renames s ++ [EvRename oldPath newPath])%list).
  { intros s. unfold renames. simpl. rewrite filter_app. by simpl. }
  run_dir. fold oldPath newPath.
  destruct (fs (world st) !! oldPath) as [[|mode|e]|] eqn:Hold; simpl.
  - destruct (fs (world st) !! newPath) as [[|mode'|e']|] eqn:Hnew; simpl.
    + intros [= <- <-]. right; left. simpl. rewrite !Hr1 by done. done.
    + destruct (os_Rename_fault (world st)) as [e|] eqn:Hren; simpl; [done|].
      rewrite Hold. simpl. intros [= <- <-]. right; right. simpl.
      split; [done|]. split; [done|].
      unfold renames at 1. simpl. rewrite !filter_app. simpl.
      by rewrite !List.app_nil_r.
    + destruct (os_IsNotExist (Some e')) eqn:Hne; simpl; [|done].
      destruct (os_Rename_fault (world st)) as [e|] eqn:Hren; simpl; [done|].
      rewrite Hold. simpl. intros [= <- <-]. right; right. simpl.
      split; [done|]. split; [done|].
      unfold renames at 1. simpl. rewrite !filter_app. simpl.
      by rewrite !List.app_nil_r.
    + rewrite ?os_IsNotExist_ErrNotExist. simpl.
      destruct (os_Rename_fault (world st)) as [e|] eqn:Hren; simpl; [done|].
      rewrite Hold. simpl. intros [= <- <-]. right; right. simpl.
      split; [done|]. split; [done|].
      unfold renames at 1. simpl. rewrite !filter_app. simpl.
      by rewrite !List.app_nil_r.
  - done.
  - destruct (os_IsNotExist (Some e)) eqn:Hne; simpl; [|done].
    intros [= <- <-]. left. simpl. rewrite Hr1 by done. done.
  - rewrite ?os_IsNotExist_ErrNotExist. simpl.
    intros [= <- <-]. left. simpl. rewrite Hr1 by done. done.
Qed.

(** X2. When the legacy path exists and is not a directory, getTSNetDir
    fails with the "expected old tslib path" error that names the path and
    its mode. It has only examined the legacy path: the new path is not
    looked at, nothing is renamed and the directory tree is as it was. *)
Theorem getTSNetDir_legacy_not_a_directory (st : State)
    (confDir prog mode : string) :
  let oldPath := filepath_Join confDir ("tslib-" ++ prog) in
  fs (world st) !! oldPath = Some (ENotDir mode) →
  getTSNetDir confDir prog st =
    Ret (Err (Errorf "expected old tslib path %q to be a directory; got %v"
                [oldPath; mode]))
        (emitted (EvLstat oldPath) st).
Proof.
  intros oldPath Hold. run_dir. fold oldPath. by rewrite Hold.
Qed.

(** X3. The migration is done once. After a getTSNetDir that succeeded,
    a second getTSNetDir with the same arguments succeeds with the new
    path again, renames nothing and leaves the directory tree as the first
    one left it. *)
Theorem getTSNetDir_second_run (st st' : State) (confDir prog d : string) :
  let oldPath := filepath_Join confDir ("tslib-" ++ prog) in
  let newPath := filepath_Join confDir ("tsnet-" ++ prog) in
  oldPath ≠ newPath →
  getTSNetDir confDir prog st = Ret (Ok d) st' →
  ∃ st'',
    getTSNetDir confDir prog st' = Ret (Ok newPath) st'' ∧
    fs (world st'') = fs (world st') ∧
    renames st'' = renames st'.
Proof.
  intros oldPath newPath Hne E.
  destruct (getTSNetDir_Ok_inv st confDir prog d st' E)
    as [(Habs & Hfs & _)|[(Hold & Hnew & Hfs & _)|(Hold & Hfs & _)]].
  - eexists. split.
    + apply getTSNetDir_old_absent. fold oldPath.
      unfold lstat in *. by rewrite Hfs.
    + split; [done|]. by apply renames_emit.
  - eexists. split.
    + apply getTSNetDir_both_exist; fold oldPath newPath; by rewrite Hfs.
    + split; [done|]. unfold emitted. by rewrite !renames_emit.
  - eexists. split.
    + apply getTSNetDir_old_absent. fold oldPath. unfold lstat.
      rewrite Hfs, lookup_insert_ne by done. by rewrite lookup_delete_eq.
    + split; [done|]. by apply renames_emit.
Qed.

(** ** The shape of Start *)

Lemma Server_Start_latch st :
  initOnce (srv st) = false →
  Server_Start st = latch (start (on_srv (with_shutdownCtx (Some false)) st)).
Proof.
  intros Hfresh.
  unfold Server_Start, initOnce_Do, bind at 1 2, gets at 1. rewrite Hfresh.
  unfold defer, doInit, bind at 1, modify at 1. cbv beta iota.
  unfold bind at 1.
  destruct (start _) as [[err|] st_c|st_c|msg st_c]; reflexivity.
Qed.

Lemma start_unfold st exe :
  os_Executable (world st) = Ok exe →
  start st =
    (start_store_policy ?;;
     start_rootPath
       (strings_TrimSuffix (strings_ToLower (filepath_Base exe)) ".exe") ?;;
     start_netstack ?;; start_backend) (prelude_state exe st).
Proof.
  intros Hexe. unfold start, bind at 1, get. simpl. rewrite Hexe.
  unfold bind at 1, modify at 1. unfold bind at 1, gets at 1.
  unfold prelude_state. simpl.
  destruct (decide (Hostname (srv st) = "")); reflexivity.
Qed.

Lemma start_no_executable st err :
  os_Executable (world st) = Err err → start st = Ret (Some err) st.
Proof. intros Hexe. unfold start, bind, get. simpl. by rewrite Hexe. Qed.



Lemma or_return_None_inv (m k : M (option error)) st st' :
  or_return m k st = Ret None st' →
  ∃ st1, m st = Ret None st1 ∧ k st1 = Ret None st'.
Proof.
  unfold or_return, bind.
  destruct (m st) as [[err|] st1|st1|msg st1]; try done. eauto.
Qed.

(** What a successful run of the second half of [start] has done. *)
Lemma start_tail_success st st' :
  (start_netstack ?;; start_backend) st = Ret None st' →
  linkMon (srv st') = Some tt ∧
  dialer (srv st') = Some tt ∧
  lb (srv st') = Some tt ∧
  localAPIListener (srv st') = Some tt ∧
  shutdownCtx (srv st') = shutdownCtx (srv st) ∧
  hostname (srv st') = hostname (srv st) ∧
  rootPath (srv st') = rootPath (srv st) ∧
  initErr (srv st') = initErr (srv st) ∧
  fs (world st') = fs (world st) ∧
  Store (srv st') =
    match Store (srv st) with
    | Some sto => Some sto
    | None =>
        Some (FileStore (filepath_Join (rootPath (srv st)) "tailscaled.state"))
    end ∧
  trace (world st') =
    (trace (world st) ++
     startup_calls (bool_decide (is_Some (Store (srv st))))
       (Ephemeral (srv st))
       (filepath_Join (rootPath (srv st)) "tailscaled.state")
       (hostname (srv st)) (env_TS_AUTHKEY (world st))
       (bool_decide (lb_State (world st) = NeedsLogin)
        || env_TSNET_FORCE_LOGIN (world st)))%list.
Proof.
  unfold or_return, start_netstack, start_backend, or_return, call, bind,
    gets, get, modify, emit, ret. simpl.
  destruct (monitor_New_fault (world st)); simpl; [done|].
  destruct (NewUserspaceEngine_fault (world st)); simpl; [done|].
  destruct (GetInternals_ok (world st)); simpl; [|done].
  destruct (netstack_Create_fault (world st)); simpl; [done|].
  destruct (netstack_Start_fault (world st)); simpl; [done|].
  destruct (Store (srv st)) as [sto|] eqn:Hsto; simpl.
  - destruct (NewLocalBackend_fault (world st)); simpl; [done|].
    destruct (lb_Start_fault (world st)); simpl; [done|].
    destruct (bool_decide (lb_State (world st) = NeedsLogin)
              || env_TSNET_FORCE_LOGIN (world st)) eqn:Hlogin; simpl;
      intros [= <-]; simpl; rewrite ?Hsto;
      repeat split; try done;
      unfold startup_calls; simpl; by rewrite <- ?app_assoc.
  - destruct (store_New_fault (world st)); simpl; [done|].
    destruct (NewLocalBackend_fault (world st)); simpl; [done|].
    destruct (lb_Start_fault (world st)); simpl; [done|].
    destruct (bool_decide (lb_State (world st) = NeedsLogin)
              || env_TSNET_FORCE_LOGIN (world st)) eqn:Hlogin; simpl;
      intros [= <-]; simpl; rewrite ?Hsto;
      repeat split; try done;
      unfold startup_calls; simpl; by rewrite <- ?app_assoc.
Qed.

Lemma start_rootPath_configured st prog :
  rootPath (srv st) ≠ "" →
  start_rootPath prog st =
    Ret (match fs (world st) !! rootPath (srv st) with
         | Some EDir => None
         | Some (ENotDir _) =>
             Some (Errorf "%v is not a directory" [rootPath (srv st)])
         | Some (EUnreadable e) => Some e
         | None => Some (fs_ErrNotExist (rootPath (srv st)))
         end)
        (emitted (EvStat (rootPath (srv st))) st).
Proof.
  intros Hrp. unfold start_rootPath, bind at 1, gets at 1.
  rewrite decide_False by done.
  unfold or_return, bind, ret, gets, os_Stat, emit, modify, get, lstat. simpl.
  by destruct (fs (world st) !! rootPath (srv st)) as [[| |]|].
Qed.

(** A successful [start_rootPath] ends on a directory, and changes no field
    of the server but [rootPath]. *)
Lemma start_rootPath_success st st' prog :
  start_rootPath prog st = Ret None st' →
  fs (world st') !! rootPath (srv st') = Some EDir ∧
  srv st' = with_rootPath (rootPath (srv st')) (srv st) ∧
  lns st' = lns st ∧ chans st' = chans st ∧
  (rootPath (srv st) ≠ "" → rootPath (srv st') = rootPath (srv st)).
Proof.
  destruct (decide (rootPath (srv st) = "")) as [Hrp|Hrp].
  - unfold start_rootPath, bind at 1, gets at 1. rewrite decide_True by done.
    unfold or_return at 1, bind at 1 2, get.
    destruct (os_UserConfigDir (world st)) as [confDir|err]; [|done].
    destruct (getTSNetDir_returns st confDir prog)
      as (r & st1 & E & Hsrv & Hlns & Hch & _).
    unfold bind at 1. rewrite E. destruct r as [d|err]; [|done].
    unfold bind at 1, modify at 1.
    unfold os_MkdirAll, os_Stat, bind, gets, get, modify, emit, ret, lstat.
    simpl.
    destruct (os_MkdirAll_fault (world st1)); simpl; [done|].
    destruct (fs (world st1) !! d) as [[|mode|e]|] eqn:Hd; simpl; try done.
    + rewrite Hd. simpl. intros [= <-]. simpl. rewrite Hsrv.
      destruct (srv st); done.
    + rewrite lookup_insert_eq. simpl. intros [= <-]. simpl.
      rewrite lookup_insert_eq, Hsrv. destruct (srv st); done.
  - rewrite start_rootPath_configured by done.
    destruct (fs (world st) !! rootPath (srv st)) as [[| |]|] eqn:Hd; try done.
    intros [= <-]. simpl. split; [done|]. destruct st as [[] ? ? ?]; done.
Qed.

#[local] Instance fs_calls_only_refl : Reflexive fs_calls_only.
Proof. intros st. exists []. by rewrite List.app_nil_r. Qed.
#[local] Instance fs_calls_only_trans : Transitive fs_calls_only.
Proof.
  intros a b c (e1 & H1 & F1) (e2 & H2 & F2). exists (e1 ++ e2)%list.
  split; [by rewrite H2, H1, <- app_assoc|]. by apply Forall_app.
Qed.

Lemma emit_fs_calls_only e :
  is_fs_call e = true → keeps fs_calls_only (emit e).
Proof.
  intros He. apply keeps_modify. intros st. exists [e]. split; [done|].
  by constructor.
Qed.

Ltac fs_calls_walk :=
  repeat
    (intros;
     lazymatch goal with
     | |- keeps _ (ret _) => apply keeps_ret; frame_side
     | |- keeps _ get => apply keeps_get; frame_side
     | |- keeps _ (gets _) => apply keeps_gets; frame_side
     | |- keeps _ (emit _) => apply emit_fs_calls_only; reflexivity
     | |- keeps _ (or_return _ _) => apply keeps_or_return; frame_side
     | |- keeps _ (bind _ _) => apply keeps_bind; frame_side
     | |- keeps _ (modify _) =>
         apply keeps_modify; intros ?; exists [];
         split; [symmetry; apply List.app_nil_r | constructor]
     | |- keeps _ (match _ with _ => _ end) => case_match
     end).

Lemma start_rootPath_fs_calls_only prog :
  keeps fs_calls_only (start_rootPath prog).
Proof.
  unfold start_rootPath, getTSNetDir, os_Lstat, os_Stat, os_Rename,
    os_MkdirAll.
  fs_calls_walk.
Qed.

#[local] Instance other_calls_only_refl : Reflexive other_calls_only.
Proof. intros st. exists []. by rewrite List.app_nil_r. Qed.
#[local] Instance other_calls_only_trans : Transitive other_calls_only.
Proof.
  intros a b c (e1 & H1 & F1) (e2 & H2 & F2). exists (e1 ++ e2)%list.
  split; [by rewrite H2, H1, <- app_assoc|]. by apply Forall_app.
Qed.




(** A [start] that succeeds has set every handle. *)
Lemma start_success st st' :
  start st = Ret None st' →
  handles_set st' ∨ shutdownCtx (srv st) = None.
Proof.
  destruct (os_Executable (world st)) as [exe|err] eqn:Hexe;
    [|by rewrite (start_no_executable _ _ Hexe)].
  rewrite (start_unfold _ _ Hexe).
  intros E. apply or_return_None_inv in E as (st1 & E1 & E).
  rewrite start_store_policy_decides in E1. injection E1 as _ <-.
  apply or_return_None_inv in E as (st2 & E2 & E).
  apply start_rootPath_success in E2 as (_ & Hsrv & _).
  apply start_tail_success in E
    as (Hmon & Hdial & Hlb & Hlal & Hctx & _).
  destruct (shutdownCtx (srv st)) as [b|] eqn:Hb; [left|by right].
  unfold handles_set. rewrite Hmon, Hlb, Hlal, Hctx, Hsrv. simpl.
  unfold prelude_state. simpl.
  destruct (decide (Hostname (srv st) = "")); simpl; rewrite Hb; eauto.
Qed.

#[local] Instance same_oracles_refl : Reflexive same_oracles.
Proof. by intros st. Qed.
#[local] Instance same_oracles_trans : Transitive same_oracles.
Proof. intros a b c Hab Hbc. unfold same_oracles in *. congruence. Qed.

Ltac oracles_walk :=
  repeat
    (intros;
     lazymatch goal with
     | |- keeps _ (ret _) => apply keeps_ret; frame_side
     | |- keeps _ get => apply keeps_get; frame_side
     | |- keeps _ (gets _) => apply keeps_gets; frame_side
     | |- keeps _ (or_return _ _) => apply keeps_or_return; frame_side
     | |- keeps _ (bind _ _) => apply keeps_bind; frame_side
     | |- keeps _ (modify _) => apply keeps_modify; intros ?; reflexivity
     | |- keeps _ (match _ with _ => _ end) => case_match
     end).

Lemma start_same_oracles : keeps same_oracles start.
Proof.
  unfold start, start_store_policy, start_rootPath, getTSNetDir, os_Lstat,
    os_Stat, os_Rename, os_MkdirAll, start_netstack, start_backend, call,
    emit.
  oracles_walk.
Qed.

Lemma start_rootPath_same_oracles prog :
  keeps same_oracles (start_rootPath prog).
Proof.
  unfold start_rootPath, getTSNetDir, os_Lstat, os_Stat, os_Rename,
    os_MkdirAll, emit.
  oracles_walk.
Qed.

Lemma Server_Start_same_oracles st :
  same_oracles st (state_of (Server_Start st)).
Proof.
  destruct (initOnce (srv st)) eqn:Hon.
  - destruct (Server_Start_returns st)
      as (r & st1 & E & _ & _ & _ & _ & _ & _ & Hsame & _).
    rewrite E. simpl. by rewrite (Hsame Hon).
  - rewrite (Server_Start_latch _ Hon).
    destruct (start_same_oracles (on_srv (with_shutdownCtx (Some false)) st))
      as (e & st_c & E & Hc).
    rewrite E. destruct e; exact Hc.
Qed.

Lemma same_oracles_fields st st' :
  same_oracles st st' →
  lb_State (world st') = lb_State (world st) ∧
  env_TS_AUTHKEY (world st') = env_TS_AUTHKEY (world st) ∧
  env_TSNET_FORCE_LOGIN (world st') = env_TSNET_FORCE_LOGIN (world st).
Proof.
  intros Hs. unfold same_oracles in Hs.
  split; [exact (f_equal lb_State Hs)|].
  split; [exact (f_equal env_TS_AUTHKEY Hs)|exact (f_equal env_TSNET_FORCE_LOGIN Hs)].
Qed.

(** Everything a [start] that succeeds has done. *)
Lemma start_success_full st st' :
  start st = Ret None st' →
  ∃ exe dir_calls,
    os_Executable (world st) = Ok exe ∧
    store_policy_ok (srv st) = true ∧
    shutdownCtx (srv st') = shutdownCtx (srv st) ∧
    initErr (srv st') = initErr (srv st) ∧
    lb (srv st') = Some tt ∧
    linkMon (srv st') = Some tt ∧
    localAPIListener (srv st') = Some tt ∧
    dialer (srv st') = Some tt ∧
    hostname (srv st') =
      (if decide (Hostname (srv st) = "")
       then strings_TrimSuffix (strings_ToLower (filepath_Base exe)) ".exe"
       else Hostname (srv st)) ∧
    fs (world st') !! rootPath (srv st') = Some EDir ∧
    (Dir (srv st) ≠ "" → rootPath (srv st') = Dir (srv st)) ∧
    Store (srv st') =
      match Store (srv st) with
      | Some sto => Some sto
      | None =>
          Some (FileStore
                  (filepath_Join (rootPath (srv st')) "tailscaled.state"))
      end ∧
    Forall (λ e, is_fs_call e = true) dir_calls ∧
    trace (world st') =
      (trace (world st) ++ dir_calls ++
       startup_calls (bool_decide (is_Some (Store (srv st))))
         (Ephemeral (srv st))
         (filepath_Join (rootPath (srv st')) "tailscaled.state")
         (hostname (srv st')) (env_TS_AUTHKEY (world st))
         (bool_decide (lb_State (world st) = NeedsLogin)
          || env_TSNET_FORCE_LOGIN (world st)))%list.
Proof.
  destruct (os_Executable (world st)) as [exe|err] eqn:Hexe;
    [|by rewrite (start_no_executable _ _ Hexe)].
  rewrite (start_unfold _ _ Hexe).
  set (st_a := prelude_state exe st).
  intros E. apply or_return_None_inv in E as (st1 & E1 & E).
  rewrite start_store_policy_decides in E1.
  assert (Hpol : store_policy_ok (srv st) = true).
  { assert (Hp : store_policy_ok (srv st_a) = store_policy_ok (srv st)).
    { unfold st_a, prelude_state. simpl.
      by destruct (decide (Hostname (srv st) = "")). }
    rewrite <- Hp. by destruct (store_policy_ok (srv st_a)). }
  injection E1 as _ <-.
  apply or_return_None_inv in E as (st_b & Eb & E).
  destruct (start_rootPath_fs_calls_only
              (strings_TrimSuffix (strings_ToLower (filepath_Base exe)) ".exe")
              st_a)
    as (e' & st_b' & Eb' & (dir_calls & Htr & Hfs)).
  rewrite Eb in Eb'. injection Eb' as <- <-.
  destruct (start_rootPath_same_oracles
              (strings_TrimSuffix (strings_ToLower (filepath_Base exe)) ".exe")
              st_a)
    as (e'' & st_b'' & Eb'' & Hor).
  rewrite Eb in Eb''. injection Eb'' as <- <-.
  apply same_oracles_fields in Hor as (Hlbs & Hkey & Hforce).
  apply start_rootPath_success in Eb as (Hdir & Hsrv & _ & _ & Hconf).
  apply start_tail_success in E
    as (Hmon & Hdial & Hlb & Hlal & Hctx & Hhost & Hroot & Herr & Hfsame
        & Hstore & Htrace).
  assert (Hfields :
    shutdownCtx (srv st_b) = shutdownCtx (srv st) ∧
    initErr (srv st_b) = initErr (srv st) ∧
    hostname (srv st_b) =
      (if decide (Hostname (srv st) = "")
       then strings_TrimSuffix (strings_ToLower (filepath_Base exe)) ".exe"
       else Hostname (srv st)) ∧
    Store (srv st_b) = Store (srv st) ∧
    Ephemeral (srv st_b) = Ephemeral (srv st) ∧
    rootPath (srv st_a) = Dir (srv st) ∧
    world st_a = world st).
  { rewrite Hsrv. unfold st_a, prelude_state. simpl.
    destruct (decide (Hostname (srv st) = "")) as [Hh|Hh]; simpl;
      repeat split; try done. }
  destruct Hfields as (Hc & He & Hh & Hs & Hep & Hra & Hwa).
  exists exe, dir_calls.
  rewrite Hctx, Herr, Hhost, Hroot, Hfsame, Hstore, Htrace, Htr.
  rewrite Hc, He, Hh, Hs, Hep, Hwa, Hlbs, Hkey, Hforce, Hwa.
  repeat split; try done.
  - intros Hd. rewrite <- Hra. apply Hconf. by rewrite Hra.
  - by rewrite <- app_assoc.
Qed.

Lemma Server_Start_None_inv st st1 :
  initOnce (srv st) = false →
  Server_Start st = Ret None st1 →
  ∃ st_c,
    start (on_srv (with_shutdownCtx (Some false)) st) = Ret None st_c ∧
    st1 = on_srv (with_initOnce true) st_c.
Proof.
  intros Hfresh. rewrite (Server_Start_latch _ Hfresh).
  destruct (start _) as [[err|] st_c|st_c|msg st_c]; try done.
  simpl. intros [= _ <-]. by exists st_c.
Qed.

#[local] Instance same_ctx_refl : Reflexive same_ctx.
Proof. by intros st. Qed.
#[local] Instance same_ctx_trans : Transitive same_ctx.
Proof. intros a b c Hab Hbc. unfold same_ctx in *. congruence. Qed.

(** [start] never touches the shutdown context, whatever it returns. *)
Lemma start_same_ctx : keeps same_ctx start.
Proof.
  unfold start, start_store_policy, start_rootPath, getTSNetDir, os_Lstat,
    os_Stat, os_Rename, os_MkdirAll, start_netstack, start_backend, call,
    emit.
  oracles_walk.
Qed.

(** ** Start is latched *)

(** C3. Start runs the initialization sequence exactly once per server.
    On a server whose once has not fired, the first call runs [doInit]:
    the shutdown context is created and [start] is run from the state that
    has it, with outcome [e] and final state [st_c]. The result [r] of the
    call is nil when [start] succeeds and the error of [start] wrapped with
    the "tsnet: " context when it fails; [r] is latched, the once has fired
    and the state [st1] the call leaves is [st_c] with the latch and the
    once recorded. When [r] is nil every handle and the dialer are set and
    the trace has grown by the calls of the initialization sequence, each
    made once. Every later call returns [r] and leaves the state -- in
    particular the trace of calls made to the collaborators -- exactly as
    the first call left it: [S n] calls in a row return [r] every time and
    end in the first call's state, and so do any [k] calls made after. *)
Theorem Start_runs_init_once (st : State) (n : nat) :
  initOnce (srv st) = false →
  initErr (srv st) = None →
  ∃ r st1 e st_c,
    start (on_srv (with_shutdownCtx (Some false)) st) = Ret e st_c ∧
    r = match e with
        | Some err => Some (StartupError err)
        | None => None
        end ∧
    st1 = on_srv (with_initOnce true)
            match e with
            | Some err => on_srv (with_initErr (Some (StartupError err))) st_c
            | None => st_c
            end ∧
    Server_Start st = Ret r st1 ∧
    (r = None ∨ ∃ err, r = Some (StartupError err)) ∧
    initOnce (srv st1) = true ∧
    initErr (srv st1) = r ∧
    shutdownCtx (srv st1) = Some false ∧
    (r = None →
       handles_set st1 ∧ is_Some (dialer (srv st1)) ∧
       ∃ dir_calls,
         Forall (λ ev, is_fs_call ev = true) dir_calls ∧
         trace (world st1) =
           (trace (world st) ++ dir_calls ++
            startup_calls (bool_decide (is_Some (Store (srv st))))
              (Ephemeral (srv st))
              (filepath_Join (rootPath (srv st1)) "tailscaled.state")
              (hostname (srv st1)) (env_TS_AUTHKEY (world st))
              (bool_decide (lb_State (world st) = NeedsLogin)
               || env_TSNET_FORCE_LOGIN (world st)))%list) ∧
    Start_n (S n) st = Ret (replicate (S n) r) st1 ∧
    (∀ k, Start_n k st1 = Ret (replicate k r) st1).
Proof.
  intros Hfresh Hnone.
  destruct (start_same_ctx (on_srv (with_shutdownCtx (Some false)) st))
    as (e & st_c & Ec & Hctx).
  destruct (start_same_registry (on_srv (with_shutdownCtx (Some false)) st))
    as (e' & st_c' & Ec' & _ & _ & _ & _ & _ & Herr).
  rewrite Ec in Ec'. injection Ec' as <- <-.
  unfold same_ctx in Hctx. simpl in Hctx, Herr. rewrite Hnone in Herr.
  pose proof (Server_Start_latch st Hfresh) as E. rewrite Ec in E.
  set (r := match e with
            | Some err => Some (StartupError err)
            | None => None
            end).
  set (st1 := on_srv (with_initOnce true)
                match e with
                | Some err =>
                    on_srv (with_initErr (Some (StartupError err))) st_c
                | None => st_c
                end).
  assert (E1 : Server_Start st = Ret r st1).
  { rewrite E. unfold r, st1. destruct e as [err|]; simpl; [done|].
    by rewrite Herr. }
  assert (Hdone : initOnce (srv st1) = true) by (by destruct e).
  assert (Hr : initErr (srv st1) = r) by (by destruct e).
  assert (Hlater : ∀ k, Start_n k st1 = Ret (replicate k r) st1).
  { intros k. rewrite <- Hr. by apply Start_n_latched. }
  exists r, st1, e, st_c.
  split; [done|]. split; [done|]. split; [done|]. split; [done|].
  split; [destruct e as [err|]; [right; by exists err|by left]|].
  split; [done|]. split; [done|].
  split; [by destruct e|]. split; [|split; [|done]].
  - intros Hnil. destruct e as [err|]; [done|].
    destruct (start_success_full _ _ Ec)
      as (exe & dir_calls & _ & _ & Hc & _ & Hlb & Hmon & Hlal & Hdial
          & _ & _ & _ & _ & Hfs & Htrace).
    unfold handles_set, st1. simpl in *.
    rewrite Hctx, Hlb, Hmon, Hlal, Hdial.
    split; [by repeat split|]. split; [done|].
    exists dir_calls. split; [done|exact Htrace].
  - change (Start_n (S n)) with
      (r0 <- Server_Start ;; rs <- Start_n n ;; ret (r0 :: rs)).
    rewrite (bind_Ret _ _ _ _ _ E1).
    by rewrite (bind_Ret _ _ _ _ _ (Hlater n)).
Qed.

(** ** Start *)


(** X5. A Start that succeeds leaves the server fully set up: the shutdown
    context is live, the backend, link monitor, local API listener and
    dialer are set, the once has fired, the hostname is the configured one
    or else the program name, the state directory is an existing directory
    (the configured one when there is one), and the store is the one
    supplied or else a file store at tailscaled.state in the state
    directory. It also means the executable was found and the store passed
    the policy. *)
Theorem Start_success_sets_up (st st1 : State) :
  initOnce (srv st) = false →
  Server_Start st = Ret None st1 →
  ∃ exe,
    os_Executable (world st) = Ok exe ∧
    store_policy_ok (srv st) = true ∧
    initOnce (srv st1) = true ∧
    shutdownCtx (srv st1) = Some false ∧
    lb (srv st1) = Some tt ∧
    linkMon (srv st1) = Some tt ∧
    localAPIListener (srv st1) = Some tt ∧
    dialer (srv st1) = Some tt ∧
    hostname (srv st1) =
      (if decide (Hostname (srv st) = "")
       then strings_TrimSuffix (strings_ToLower (filepath_Base exe)) ".exe"
       else Hostname (srv st)) ∧
    fs (world st1) !! rootPath (srv st1) = Some EDir ∧
    (Dir (srv st) ≠ "" → rootPath (srv st1) = Dir (srv st)) ∧
    Store (srv st1) =
      match Store (srv st) with
      | Some sto => Some sto
      | None =>
          Some (FileStore
                  (filepath_Join (rootPath (srv st1)) "tailscaled.state"))
      end.
Proof.
  intros Hfresh E.
  destruct (Server_Start_None_inv _ _ Hfresh E) as (st_c & Ec & ->).
  destruct (start_success_full _ _ Ec)
    as (exe & dir_calls & Hexe & Hpol & Hctx & _ & Hlb & Hmon & Hlal & Hdial
        & Hhost & Hdir & Hconf & Hstore & _).
  exists exe. simpl in *. by repeat split.
Qed.

(** X6. The calls of a Start that succeeds are, in this order: calls to the
    file system only, while the state directory is resolved; then the link
    monitor, the engine, the netstack and its start; the store, only when
    none was supplied; the backend, built with the Ephemeral flag, and its
    start with the resolved hostname and TS_AUTHKEY; the interactive login;
    the login-URL loop; the local API server. The interactive login is
    started exactly when the backend state is NeedsLogin or
    TSNET_FORCE_LOGIN is set: an auth key alone never starts it. *)
Theorem Start_success_calls (st st1 : State) :
  initOnce (srv st) = false →
  Server_Start st = Ret None st1 →
  ∃ dir_calls,
    Forall (λ e, is_fs_call e = true) dir_calls ∧
    trace (world st1) =
      (trace (world st) ++ dir_calls ++
       startup_calls (bool_decide (is_Some (Store (srv st))))
         (Ephemeral (srv st))
         (filepath_Join (rootPath (srv st1)) "tailscaled.state")
         (hostname (srv st1)) (env_TS_AUTHKEY (world st))
         (bool_decide (lb_State (world st) = NeedsLogin)
          || env_TSNET_FORCE_LOGIN (world st)))%list ∧
    (EvStartLoginInteractive ∈
       (dir_calls ++
        startup_calls (bool_decide (is_Some (Store (srv st))))
          (Ephemeral (srv st))
          (filepath_Join (rootPath (srv st1)) "tailscaled.state")
          (hostname (srv st1)) (env_TS_AUTHKEY (world st))
          (bool_decide (lb_State (world st) = NeedsLogin)
           || env_TSNET_FORCE_LOGIN (world st)))%list
     ↔ lb_State (world st) = NeedsLogin
       ∨ env_TSNET_FORCE_LOGIN (world st) = true).
Proof.
  intros Hfresh E.
  destruct (Server_Start_None_inv _ _ Hfresh E) as (st_c & Ec & ->).
  destruct (start_success_full _ _ Ec)
    as (exe & dir_calls & _ & _ & _ & _ & _ & _ & _ & _ & _ & _ & _ & _
        & Hfs & Htrace).
  exists dir_calls. split; [done|]. split; [exact Htrace|].
  simpl.
  set (login := bool_decide (lb_State (world st) = NeedsLogin)
                || env_TSNET_FORCE_LOGIN (world st)).
  assert (Hlogin : login = true ↔
            lb_State (world st) = NeedsLogin
            ∨ env_TSNET_FORCE_LOGIN (world st) = true).
  { unfold login. rewrite orb_true_iff, bool_decide_eq_true. done. }
  rewrite <- Hlogin. rewrite elem_of_app. split.
  - intros [Hin|Hin].
    + rewrite Forall_forall in Hfs. by apply Hfs in Hin.
    + unfold startup_calls in Hin. rewrite !elem_of_app in Hin.
      destruct login; [done|].
      destruct Hin as [Hin|[Hin|[Hin|[Hin|Hin]]]];
        try (by repeat (apply elem_of_cons in Hin as [Hin|Hin]; [done|]);
             apply elem_of_nil in Hin).
      destruct (bool_decide _);
        by repeat (apply elem_of_cons in Hin as [Hin|Hin]; [done|]);
           apply elem_of_nil in Hin.
  - intros ->. right. unfold startup_calls. rewrite !elem_of_app.
    do 3 right. left. by left.
Qed.

(** ** Servers in use *)

Lemma in_use_reachable st : in_use st → reachable st.
Proof.
  induction 1 as [dir store hn eph w|a st _ IH Hret].
  - by apply reach_init.
  - by apply reach_call.
Qed.

Lemma in_use_wf st : in_use st → wf st.
Proof. intros Hu. by apply reachable_wf, in_use_reachable. Qed.

Lemma ready_frame st st' :
  initOnce (srv st') = initOnce (srv st) →
  initErr (srv st') = initErr (srv st) →
  (is_Some (shutdownCtx (srv st)) → is_Some (shutdownCtx (srv st'))) →
  lb (srv st') = lb (srv st) →
  linkMon (srv st') = linkMon (srv st) →
  localAPIListener (srv st') = localAPIListener (srv st) →
  dialer (srv st') = dialer (srv st) →
  ready st → ready st'.
Proof.
  intros H1 H2 H3 H4 H5 H6 H7 Hr Hon Herr.
  rewrite H1 in Hon. rewrite H2 in Herr.
  destruct (Hr Hon Herr) as ((Hc & Hl & Hm & Ha) & Hd).
  unfold handles_set. rewrite H4, H5, H6, H7. auto.
Qed.

Lemma Server_Start_ready st :
  ready st → ready (state_of (Server_Start st)).
Proof.
  intros Hr. destruct (initOnce (srv st)) eqn:Hon.
  - destruct (Server_Start_returns st)
      as (r & st1 & E & _ & _ & _ & _ & _ & _ & Hsame & _).
    rewrite E. simpl. by rewrite (Hsame Hon).
  - rewrite (Server_Start_latch _ Hon).
    destruct (start _) as [[err|] st_c|st_c|msg st_c] eqn:E; simpl.
    + by intros _ Herr.
    + intros _ Herr. simpl in Herr.
      destruct (start_success_full _ _ E)
        as (exe & dir_calls & _ & _ & Hctx & _ & Hlb & Hmon & Hlal & Hdial & _).
      unfold handles_set. simpl. rewrite Hctx, Hlb, Hmon, Hlal, Hdial.
      simpl. eauto.
    + destruct (start_same_registry (on_srv (with_shutdownCtx (Some false)) st))
        as (e' & st' & E' & _). congruence.
    + destruct (start_same_registry (on_srv (with_shutdownCtx (Some false)) st))
        as (e' & st' & E' & _). congruence.
Qed.

Lemma run_api_ready a st :
  wf st → ready st → api_returns a st → ready (run_api a st).
Proof.
  intros Hwf Hr Hret.
  destruct a as [|network addr|p offer|p|c port arrival tie|]; simpl in *.
  - by apply Server_Start_ready.
  - destruct (net_SplitHostPort addr) as [[h pt]|err] eqn:Hsplit.
    + destruct (Server_Start_returns st)
        as (r & st1 & E & _ & _ & _ & _ & _ & _ & _ & _).
      pose proof (Server_Start_wf _ _ _ Hwf E) as Hwf1.
      pose proof (Server_Start_ready st Hr) as Hr1. rewrite E in Hr1.
      simpl in Hr1.
      rewrite (Server_Listen_after_Start _ _ _ _ _ _ _ Hsplit E
                 (wf_unlocked _ Hwf1)).
      destruct r as [err|]; [done|]. simpl.
      destruct (map_index _ _); simpl;
        (eapply ready_frame; [..|exact Hr1]); try done;
        destruct st1 as [[] ? ? ?]; done.
    + by rewrite (Server_Listen_bad_address _ _ _ _ Hsplit).
  - by rewrite listener_Accept_same_state.
  - destruct (lns st !! p) as [ln|] eqn:Hp.
    + destruct (listener_Close_returns st p ln Hwf Hp)
        as (st' & E & _ & _ & _ & Hsame & Hclosed).
      rewrite E. simpl.
      destruct (decide (map_index (listeners (srv st)) (key ln) = Some p))
        as [Hreg|Hreg].
      * rewrite (Hclosed Hreg).
        (eapply ready_frame; [..|exact Hr]); try done;
          destruct st as [[] ? ? ?]; done.
      * by rewrite (Hsame Hreg).
    + unfold listener_Close, bind, deref in *. by rewrite Hp in *.
  - destruct (map_index (listeners (srv st))
                (ListenKey "tcp" "" (fmt_Sprint port))) as [p|] eqn:Hk.
    + destruct (wf_registered st Hwf _ _ Hk) as (ln & Hp & _ & Hopen).
      rewrite (forwardTCP_registered st c port arrival tie p ln
                 (wf_unlocked _ Hwf) Hk Hp Hopen).
      simpl. (eapply ready_frame; [..|exact Hr]); done.
    + rewrite (forwardTCP_unregistered st c port arrival tie
                 (wf_unlocked _ Hwf) Hk).
      simpl. (eapply ready_frame; [..|exact Hr]); done.
  - destruct (Server_Close st) as [r st1| |] eqn:E; [|done|done].
    pose proof (Server_Close_without_handles _ _ _ E) as Hh.
    destruct (range_listeners (listeners (srv st))) as [|p0 l] eqn:Hl.
    + rewrite (Server_Close_empty st Hh (wf_unlocked _ Hwf) Hl) in E.
      injection E as <- <-. simpl.
      (eapply ready_frame; [..|exact Hr]); try done;
        try (destruct st as [[] ? ? ?]; done).
    + by rewrite (Server_Close_parks_at st p0 l Hwf Hh Hl) in E.
Qed.

Lemma in_use_ready st : in_use st → ready st.
Proof.
  induction 1 as [dir store hn eph w|a st Hu IH Hret].
  - intros Hon. done.
  - apply run_api_ready; auto using in_use_wf.
Qed.

(** X7. Between the calls a program makes on a server it created, the
    registry lock is free; every registry entry points to a listener whose
    own key is the entry's key and whose channel is open; no listener is
    filed under two keys; and once there is an entry, Start has succeeded
    and every handle Close needs is set. *)
Theorem in_use_invariant (st : State) :
  in_use st →
  mu (srv st) = false ∧
  (∀ k p, map_index (listeners (srv st)) k = Some p →
     ∃ ln, lns st !! p = Some ln ∧ key ln = k
           ∧ chans st !! conn ln = Some ChanOpen) ∧
  (∀ k1 k2 p,
     map_index (listeners (srv st)) k1 = Some p →
     map_index (listeners (srv st)) k2 = Some p → k1 = k2) ∧
  (∀ k p, map_index (listeners (srv st)) k = Some p →
     initOnce (srv st) = true ∧ initErr (srv st) = None ∧ handles_set st).
Proof.
  intros Hu. pose proof (in_use_wf _ Hu) as Hwf.
  pose proof (in_use_ready _ Hu) as Hr.
  split; [apply Hwf|]. split; [apply Hwf|]. split.
  - intros k1 k2 p H1 H2.
    destruct (wf_registered _ Hwf _ _ H1) as (l1 & Hl1 & <- & _).
    destruct (wf_registered _ Hwf _ _ H2) as (l2 & Hl2 & <- & _).
    congruence.
  - intros k p Hk. destruct (wf_started _ Hwf _ _ Hk) as [Hon Herr].
    split; [done|]. split; [done|]. by destruct (Hr Hon Herr).
Qed.

(** ** Close *)

(** X8. On a server in use on which Start has succeeded, Close never
    panics. With no listener registered it returns nil: the shutdown
    context is cancelled, the backend, the link monitor and the local API
    listener are shut down in that order, and the registry is left nil.
    With a listener registered it parks on the registry lock. *)
Theorem Close_after_Start (st : State) :
  in_use st →
  initOnce (srv st) = true →
  initErr (srv st) = None →
  match range_listeners (listeners (srv st)) with
  | [] =>
      ∃ st',
        Server_Close st = Ret None st' ∧
        listeners (srv st') = None ∧
        shutdownCtx (srv st') = Some true ∧
        mu (srv st') = false ∧
        trace (world st') =
          (trace (world st) ++
           [EvShutdownCancel; EvBackendShutdown; EvLinkMonClose;
            EvLocalAPIListenerClose])%list
  | _ :: _ =>
      ∃ st', Server_Close st = Blocked st' ∧ mu (srv st') = true
             ∧ listeners (srv st') = listeners (srv st)
  end.
Proof.
  intros Hu Hon Herr. pose proof (in_use_wf _ Hu) as Hwf.
  destruct (in_use_ready _ Hu Hon Herr) as [Hh _].
  destruct (range_listeners (listeners (srv st))) as [|p0 l] eqn:Hl.
  - eexists. split; [by apply Server_Close_empty; [|apply Hwf|]|].
    simpl. repeat split; [apply Hwf|]. by rewrite <- !app_assoc.
  - eexists. split; [by eapply Server_Close_parks_at|]. done.
Qed.

(** X9. Close on a server on which Start was never called panics at its
    first statement, the call of the nil [shutdownCancel], and changes
    nothing. *)
Theorem Close_before_Start_panics (st : State) :
  shutdownCtx (srv st) = None →
  ∃ msg, Server_Close st = Panic msg st.
Proof.
  intros Hctx. eexists. unfold Server_Close, bind at 1, shutdownCancel.
  unfold bind at 1, gets at 1. rewrite Hctx. reflexivity.
Qed.

(** X10. A Close that returned does not retire the server. Start stays
    latched on its success, and a later Listen on a well-formed address
    makes a new registry and files a new listener in it, alone. *)
Theorem Listen_after_Close (st st' : State) (r : option error)
    (network a h pt : string) :
  wf st →
  initOnce (srv st) = true →
  initErr (srv st) = None →
  Server_Close st = Ret r st' →
  net_SplitHostPort a = Ok (h, pt) →
  ∃ p st'',
    Server_Listen network a st' = Ret (Ok p) st'' ∧
    listeners (srv st'') = Some {[ ListenKey network h pt := p ]} ∧
    lns st'' !! p =
      Some (Listener (ListenKey network h pt) a (fresh (dom (chans st')))).
Proof.
  intros Hwf Hon Herr E Hsplit.
  pose proof (Server_Close_without_handles _ _ _ E) as Hh.
  destruct (Server_Close_wf st r st' Hwf E) as (-> & Hwf' & _ & _ & Hnil).
  destruct (range_listeners (listeners (srv st))) as [|p0 l] eqn:Hl;
    [|by rewrite (Server_Close_parks_at st p0 l Hwf Hh Hl) in E].
  rewrite (Server_Close_empty st Hh (wf_unlocked _ Hwf) Hl) in E.
  assert (Hon' : initOnce (srv st') = true).
  { injection E as <-. by destruct st as [[] ? ? ?]. }
  assert (Herr' : initErr (srv st') = None).
  { injection E as <-. by destruct st as [[] ? ? ?]. }
  destruct (Server_Start_returns st')
    as (r' & st1 & E1 & _ & _ & _ & _ & _ & Hr & Hsame & _).
  specialize (Hsame Hon'). subst st1.
  assert (r' = None) by congruence. subst r'.
  rewrite (Server_Listen_after_Start _ _ _ _ _ _ _ Hsplit E1
             (wf_unlocked _ Hwf')).
  simpl. rewrite Hnil, Herr'. simpl.
  eexists _, _. split; [reflexivity|]. simpl. rewrite Hnil. simpl.
  split; [by rewrite insert_empty|]. by rewrite lookup_insert_eq.
Qed.

(** ** Listen, dispatch and Accept together *)

Lemma Server_Listen_Ok_inv st network a p st2 :
  wf st →
  Server_Listen network a st = Ret (Ok p) st2 →
  ∃ h pt st1,
    net_SplitHostPort a = Ok (h, pt) ∧
    Server_Start st = Ret None st1 ∧
    wf st1 ∧
    map_index (listeners (srv st1)) (ListenKey network h pt) = None ∧
    p = fresh (dom (lns st1)) ∧
    st2 = listened_state (ListenKey network h pt) a st1.
Proof.
  intros Hwf E.
  destruct (net_SplitHostPort a) as [[h pt]|err] eqn:Hsplit;
    [|by rewrite (Server_Listen_bad_address _ _ _ _ Hsplit) in E].
  destruct (Server_Start_returns st)
    as (r & st1 & E1 & _ & _ & _ & _ & _ & _ & _ & _).
  pose proof (Server_Start_wf _ _ _ Hwf E1) as Hwf1.
  rewrite (Server_Listen_after_Start _ _ _ _ _ _ _ Hsplit E1
             (wf_unlocked _ Hwf1)) in E.
  destruct r as [err|]; [done|]. simpl in E.
  destruct (map_index _ _) eqn:Hk; [done|].
  injection E as <- <-. by exists h, pt, st1.
Qed.

Lemma listened_state_lookup k a st :
  lns (listened_state k a st) !! fresh (dom (lns st))
    = Some (Listener k a (fresh (dom (chans st)))) ∧
  chans (listened_state k a st) !! fresh (dom (chans st)) = Some ChanOpen ∧
  map_index (listeners (srv (listened_state k a st))) k
    = Some (fresh (dom (lns st))) ∧
  mu (srv (listened_state k a st)) = mu (srv st).
Proof. simpl. by rewrite !lookup_insert_eq. Qed.

(** X11. A listener that Listen returned for network tcp and an address
    that splits into the empty host and the decimal numeral of a port is
    the one the dispatcher serves for that port. A connection dispatched to
    the port while a receiver arrives within the second is sent on that
    listener's channel, and an Accept that meets it returns it. With no
    receiver the connection is closed after [time_Second]. *)
Theorem Listen_then_dispatch (st st2 : State) (a : string) (p : ptr)
    (port : uint16) :
  wf st →
  net_SplitHostPort a = Ok ("", fmt_Sprint port) →
  Server_Listen "tcp" a st = Ret (Ok p) st2 →
  ∃ ln,
    lns st2 !! p = Some ln ∧
    (∀ c w tie, (0 ≤ w < time_Second)%Z →
       forwardTCP c port (Some w) tie st2
         = Ret w (emitted (EvSend (conn ln) c) st2) ∧
       listener_Accept p (Some c) (emitted (EvSend (conn ln) c) st2)
         = Ret (Ok c) (emitted (EvSend (conn ln) c) st2)) ∧
    (∀ c tie,
       forwardTCP c port None tie st2
         = Ret time_Second (emitted (EvConnClose c) st2)).
Proof.
  intros Hwf Hsplit E.
  destruct (Server_Listen_Ok_inv _ _ _ _ _ Hwf E)
    as (h & pt & st1 & Hs & E1 & Hwf1 & Hfree & -> & ->).
  rewrite Hsplit in Hs. injection Hs as <- <-.
  destruct (listened_state_lookup (ListenKey "tcp" "" (fmt_Sprint port)) a st1)
    as (Hp & Hch & Hk & Hmu).
  rewrite (wf_unlocked _ Hwf1) in Hmu.
  eexists. split; [exact Hp|]. split.
  - intros c w tie Hw. split.
    + rewrite (forwardTCP_registered _ c port (Some w) tie _ _ Hmu Hk Hp Hch).
      unfold select_ready.
      destruct (Z.ltb_spec w time_Second); [|lia]. simpl.
      by rewrite Z.max_r by lia.
    + exact (listener_Accept_open (emitted _ _) _ _ (Some c) Hp Hch).
  - intros c tie.
    by rewrite (forwardTCP_registered _ c port None tie _ _ Hmu Hk Hp Hch).
Qed.

(** X12. The address of a listener is what Listen was given: Network is
    the network argument and String is the address argument as written, not
    the host and port it was split into. This stays so whatever is called
    afterwards, also once the listener is closed. *)
Theorem listener_Addr_is_what_Listen_got (st st2 : State)
    (network a : string) (p : ptr) (calls : list api) :
  wf st →
  Server_Listen network a st = Ret (Ok p) st2 →
  addr_Network (listener_Addr p) (run_apis calls st2)
    = Ret network (run_apis calls st2) ∧
  addr_String (listener_Addr p) (run_apis calls st2)
    = Ret a (run_apis calls st2).
Proof.
  intros Hwf E.
  destruct (Server_Listen_Ok_inv _ _ _ _ _ Hwf E)
    as (h & pt & st1 & Hs & E1 & Hwf1 & Hfree & -> & ->).
  destruct (listened_state_lookup (ListenKey network h pt) a st1)
    as (Hp & _).
  destruct (run_apis_closed_stays calls
              (listened_state (ListenKey network h pt) a st1)) as [_ Hlns].
  apply Hlns in Hp.
  unfold addr_Network, addr_String, listener_Addr, bind, deref, ret. simpl.
  by rewrite Hp.
Qed.

(** ** Dial *)

(** X13. On a server in use, Dial runs Start and never touches the
    registry or the listeners. If Start reports an error, Dial returns that
    error and the dialer is not asked; otherwise Dial returns whatever the
    dialer answers: it never panics on a missing dialer. *)
Theorem Dial_passes_through (st : State) (network address : string)
    (answer : result Conn) :
  in_use st →
  ∃ r st1,
    Server_Start st = Ret r st1 ∧
    Server_Dial network address answer st =
      Ret (match r with
           | Some err => Err err
           | None => answer
           end) st1 ∧
    listeners (srv st1) = listeners (srv st) ∧
    lns st1 = lns st ∧
    chans st1 = chans st.
Proof.
  intros Hu.
  destruct (Server_Start_returns st)
    as (r & st1 & E & _ & Hls & Hlns & Hch & Hon & Herr & _).
  exists r, st1. split; [done|]. split; [|done].
  unfold Server_Dial. rewrite (bind_Ret _ _ _ _ _ E).
  destruct r as [err|]; [done|].
  pose proof (Server_Start_ready st (in_use_ready _ Hu)) as Hr.
  rewrite E in Hr. simpl in Hr. destruct (Hr Hon Herr) as [_ [d Hd]].
  unfold bind, gets. by rewrite Hd.
Qed.

(** X14. Once Start has failed, the failure is what every entry point
    reports. Start, every Listen on a well-formed address and every Dial
    return the latched error, and none of them changes the state: nothing
    is retried, nothing is allocated or registered, the dialer is not
    asked. *)
Theorem failed_Start_is_final (st : State) (err : error) :
  initOnce (srv st) = true →
  initErr (srv st) = Some err →
  Server_Start st = Ret (Some err) st ∧
  (∀ network a h pt,
     net_SplitHostPort a = Ok (h, pt) →
     Server_Listen network a st = Ret (Err err) st) ∧
  (∀ network address answer,
     Server_Dial network address answer st = Ret (Err err) st).
Proof.
  intros Hon Herr.
  destruct (Server_Start_returns st)
    as (r & st1 & E & _ & _ & _ & _ & _ & Hr & Hsame & _).
  specialize (Hsame Hon). subst st1.
  rewrite Herr in Hr. subst r.
  split; [done|]. split.
  - intros network a h pt Hsplit. unfold Server_Listen. rewrite Hsplit.
    by rewrite (bind_Ret _ _ _ _ _ E).
  - intros network address answer. unfold Server_Dial.
    by rewrite (bind_Ret _ _ _ _ _ E).
Qed.

(** ** One port per listener *)

Lemma fmt_Sprint_inj (p q : uint16) : fmt_Sprint p = fmt_Sprint q → p = q.
Proof.
  unfold fmt_Sprint. intros Hs.
  assert (Hnn : ∀ n : N, N.to_uint n ≠ Decimal.Nil).
  { intros [|n]; [done|]. apply DecimalPos.Unsigned.to_uint_nonnil. }
  apply DecimalN.Unsigned.to_uint_inj.
  pose proof (DecimalString.NilZero.usu _ (Hnn p)) as Hp.
  pose proof (DecimalString.NilZero.usu _ (Hnn q)) as Hq.
  rewrite Hs in Hp. congruence.
Qed.

Lemma forwardTCP_sent_inv st c port arrival tie ch x :
  wf st →
  trace (world (state_of (forwardTCP c port arrival tie st)))
    = (trace (world st) ++ [EvSend ch x])%list →
  ∃ q ln,
    map_index (listeners (srv st)) (ListenKey "tcp" "" (fmt_Sprint port))
      = Some q ∧
    lns st !! q = Some ln ∧
    key ln = ListenKey "tcp" "" (fmt_Sprint port) ∧
    conn ln = ch.
Proof.
  intros Hwf.
  destruct (map_index (listeners (srv st))
              (ListenKey "tcp" "" (fmt_Sprint port))) as [q|] eqn:Hk.
  - destruct (wf_registered st Hwf _ _ Hk) as (ln & Hq & Hkey & Hopen).
    rewrite (forwardTCP_registered st c port arrival tie q ln
               (wf_unlocked _ Hwf) Hk Hq Hopen).
    simpl. intros Ht. apply app_inv_head in Ht.
    destruct (select_ready arrival time_Second tie).1; [|done].
    injection Ht as <- _. by exists q, ln.
  - rewrite (forwardTCP_unregistered st c port arrival tie
               (wf_unlocked _ Hwf) Hk).
    simpl. intros Ht. by apply app_inv_head in Ht.
Qed.

(** X15. A listener is served for one port only. If, from the same state,
    a dispatch for port [p1] and a dispatch for port [p2] are both sent on
    the same channel, then [p1] and [p2] are the same port: different ports
    have different decimal numerals, hence different registry keys, and no
    listener is filed under two keys. *)
Theorem dispatch_one_port_per_listener (st : State) (c1 c2 x1 x2 : Conn)
    (p1 p2 : uint16) (a1 a2 : option Z) (t1 t2 : bool) (ch : ptr) :
  wf st →
  trace (world (state_of (forwardTCP c1 p1 a1 t1 st)))
    = (trace (world st) ++ [EvSend ch x1])%list →
  trace (world (state_of (forwardTCP c2 p2 a2 t2 st)))
    = (trace (world st) ++ [EvSend ch x2])%list →
  p1 = p2.
Proof.
  intros Hwf H1 H2.
  destruct (forwardTCP_sent_inv _ _ _ _ _ _ _ Hwf H1)
    as (q1 & l1 & _ & Hq1 & Hk1 & Hc1).
  destruct (forwardTCP_sent_inv _ _ _ _ _ _ _ Hwf H2)
    as (q2 & l2 & _ & Hq2 & Hk2 & Hc2).
  assert (q1 = q2) by (eapply wf_chan_own; eauto; congruence). subst q2.
  assert (l1 = l2) by congruence. subst l2.
  rewrite Hk1 in Hk2. injection Hk2 as Hs. by apply fmt_Sprint_inj.
Qed.

(** ** The login-URL loop *)

Lemma printAuthURLLoop_rounds st b n :
  shutdownCtx (srv st) = Some b →
  printAuthURLLoop n st =
    Ret (match n with
         | O => false
         | S _ => b || negb (bool_decide (lb_State (world st) = NeedsLogin))
         end) st.
Proof.
  intros Hctx. induction n as [|n IH]; [done|].
  simpl. unfold bind at 1, gets at 1. rewrite Hctx.
  destruct b; [done|]. unfold bind, get.
  destruct (bool_decide (lb_State (world st) = NeedsLogin)) eqn:Hs; [|done].
  rewrite IH. by destruct n.
Qed.

(** X16. Close stops the login-URL loop on a server in use on which Start
    has succeeded, whether Close returns or parks on the registry lock: in
    the state Close leaves, the next round of the loop returns. *)
Theorem Close_stops_printAuthURLLoop (st : State) (n : nat) :
  in_use st →
  initOnce (srv st) = true →
  initErr (srv st) = None →
  printAuthURLLoop (S n) (state_of (Server_Close st))
    = Ret true (state_of (Server_Close st)).
Proof.
  intros Hu Hon Herr. pose proof (in_use_wf _ Hu) as Hwf.
  destruct (in_use_ready _ Hu Hon Herr) as [Hh _].
  apply (printAuthURLLoop_rounds _ true (S n)).
  destruct (range_listeners (listeners (srv st))) as [|p0 l] eqn:Hl.
  - by rewrite (Server_Close_empty st Hh (wf_unlocked _ Hwf) Hl).
  - by rewrite (Server_Close_parks_at st p0 l Hwf Hh Hl).
Qed.

(** X17. When the executable cannot be determined, Start fails with that
    error wrapped with the "tsnet: " context before doing anything else:
    no call is made to the file system or to any collaborator, and the
    hostname and the state directory stay unset. The failure is latched. *)
Theorem Start_without_executable (st : State) (err : error) :
  initOnce (srv st) = false →
  os_Executable (world st) = Err err →
  ∃ st1,
    Server_Start st = Ret (Some (StartupError err)) st1 ∧
    world st1 = world st ∧
    hostname (srv st1) = hostname (srv st) ∧
    rootPath (srv st1) = rootPath (srv st) ∧
    linkMon (srv st1) = linkMon (srv st) ∧
    lb (srv st1) = lb (srv st) ∧
    initOnce (srv st1) = true ∧
    initErr (srv st1) = Some (StartupError err).
Proof.
  intros Hfresh Hexe. rewrite (Server_Start_latch _ Hfresh).
  rewrite (start_no_executable _ err) by exact Hexe.
  eexists. split; [reflexivity|]. by simpl.
Qed.

(** ** Closing one listener *)

(** X18. Closing a listener leaves every other listener as it was: it
    stays filed under its key, its channel stays open, and an Accept on it
    still parks or takes the connection offered. *)
Theorem listener_Close_leaves_others (st : State) (p q : ptr)
    (lp lq : listener) :
  wf st →
  lns st !! p = Some lp →
  map_index (listeners (srv st)) (key lq) = Some q →
  lns st !! q = Some lq →
  p ≠ q →
  ∃ st',
    listener_Close p st = Ret None st' ∧
    map_index (listeners (srv st')) (key lq) = Some q ∧
    lns st' !! q = Some lq ∧
    chans st' !! conn lq = Some ChanOpen ∧
    listener_Accept q None st' = Blocked st' ∧
    (∀ c, listener_Accept q (Some c) st' = Ret (Ok c) st').
Proof.
  intros Hwf Hp Hkq Hq Hne.
  destruct (listener_Close_returns st p lp Hwf Hp)
    as (st' & E & Hwf' & Hlns & _ & Hsame & Hclosed).
  destruct (wf_registered st Hwf _ _ Hkq) as (lq' & Hq' & _ & Hopen).
  assert (lq' = lq) by congruence. subst lq'.
  exists st'. split; [done|].
  assert (Hfacts : map_index (listeners (srv st')) (key lq) = Some q ∧
                   chans st' !! conn lq = Some ChanOpen).
  { destruct (decide (map_index (listeners (srv st)) (key lp) = Some p))
      as [Hreg|Hreg].
    - rewrite (Hclosed Hreg). simpl. rewrite map_index_delete.
      split.
      + case_decide as Hk; [|done]. rewrite Hk in Hkq. congruence.
      + rewrite lookup_insert_ne; [done|]. intros Hc.
        apply Hne. by apply (wf_chan_own st Hwf p q lp lq).
    - by rewrite (Hsame Hreg). }
  destruct Hfacts as [Hk' Hch'].
  assert (Hq2 : lns st' !! q = Some lq) by (by rewrite Hlns).
  split; [done|]. split; [done|]. split; [done|]. split.
  - by rewrite (listener_Accept_open st' q lq None Hq2 Hch').
  - intros c. by rewrite (listener_Accept_open st' q lq (Some c) Hq2 Hch').
Qed.

(** X19. After the listener filed for a port has been closed, a connection
    dispatched to that port is closed at once, without waiting: the
    dispatcher no longer finds a listener for it. *)
Theorem dispatch_after_listener_Close (st : State) (p : ptr) (ln : listener)
    (port : uint16) (c : Conn) (arrival : option Z) (tie : bool) :
  wf st →
  lns st !! p = Some ln →
  key ln = ListenKey "tcp" "" (fmt_Sprint port) →
  map_index (listeners (srv st)) (key ln) = Some p →
  ∃ st',
    listener_Close p st = Ret None st' ∧
    forwardTCP c port arrival tie st'
      = Ret 0%Z (emitted (EvConnClose c) st').
Proof.
  intros Hwf Hp Hkey Hreg.
  destruct (listener_Close_returns st p ln Hwf Hp)
    as (st' & E & Hwf' & _ & _ & _ & Hclosed).
  exists st'. split; [done|].
  apply forwardTCP_unregistered; [apply Hwf'|].
  rewrite (Hclosed Hreg), <- Hkey. simpl. rewrite map_index_delete.
  by rewrite decide_True.
Qed.

End Further.

(** ** The further properties at concrete servers *)

Lemma demo_state_in_use : in_use demo_state.
Proof. apply use_new. Qed.

Lemma started_state_in_use : in_use started_state.
Proof.
  apply (use_call ApiStart demo_state demo_state_in_use).
  vm_compute. exact I.
Qed.

Lemma listening_state_in_use : in_use listening_state.
Proof.
  apply (use_call (ApiListen "tcp" ":80") demo_state demo_state_in_use).
  vm_compute. exact I.
Qed.

Lemma getTSNetDir_legacy_not_a_directory_witness :
  getTSNetDir "/home/u/.config" "app" legacy_file_state =
    Ret (Err (Errorf "expected old tslib path %q to be a directory; got %v"
                ["/home/u/.config/tslib-app"; "-rw-r--r--"]))
        (emitted (EvLstat "/home/u/.config/tslib-app") legacy_file_state).
Proof.
  refine (getTSNetDir_legacy_not_a_directory legacy_file_state
            "/home/u/.config" "app" "-rw-r--r--" _).
  vm_compute. reflexivity.
Defined.

Lemma getTSNetDir_second_run_witness :
  ∃ st' st'',
    getTSNetDir "/home/u/.config" "app" legacy_state
      = Ret (Ok "/home/u/.config/tsnet-app") st' ∧
    getTSNetDir "/home/u/.config" "app" st'
      = Ret (Ok "/home/u/.config/tsnet-app") st'' ∧
    fs (world st'') = fs (world st') ∧
    renames st'' = renames st'.
Proof.
  eexists.
  assert (E : getTSNetDir "/home/u/.config" "app" legacy_state
              = Ret (Ok "/home/u/.config/tsnet-app")
                  (state_of (getTSNetDir "/home/u/.config" "app" legacy_state)))
    by (vm_compute; reflexivity).
  assert (Hne : filepath_Join "/home/u/.config" ("tslib-" ++ "app")
                ≠ filepath_Join "/home/u/.config" ("tsnet-" ++ "app"))
    by (vm_compute; discriminate).
  destruct (getTSNetDir_second_run legacy_state _ "/home/u/.config" "app" _
              Hne E) as (st'' & E2 & Hfs & Hrn).
  exists st''. split; [exact E|]. split; [exact E2|]. split; [exact Hfs|exact Hrn].
Defined.


Lemma demo_state_starts : Server_Start demo_state = Ret None started_state.
Proof. vm_compute. reflexivity. Qed.

Lemma Start_runs_init_once_witness :
  Server_Start demo_state = Ret None started_state ∧
  handles_set started_state ∧
  Start_n 4 demo_state = Ret (replicate 4 None) started_state ∧
  Start_n 2 started_state = Ret (replicate 2 None) started_state.
Proof.
  destruct (Start_runs_init_once demo_state 3 eq_refl eq_refl)
    as (r & st1 & e & st_c & _ & _ & _ & E & _ & _ & _ & _ & Hset & Hn & Hk).
  rewrite demo_state_starts in E. injection E as <- <-.
  destruct (Hset eq_refl) as (Hh & _).
  split; [exact demo_state_starts|]. split; [exact Hh|].
  split; [exact Hn|exact (Hk 2)].
Defined.

Lemma Start_success_sets_up_witness :
  Server_Start demo_state = Ret None started_state ∧
  handles_set started_state ∧
  hostname (srv started_state) = "app" ∧
  fs (world started_state) !! rootPath (srv started_state) = Some EDir.
Proof.
  split; [exact demo_state_starts|].
  destruct (Start_success_sets_up demo_state started_state)
    as (exe & Hexe & _ & _ & Hctx & Hlb & Hmon & Hlal & _ & Hhost & Hdir & _);
    [reflexivity | exact demo_state_starts |].
  split.
  - unfold handles_set. rewrite Hctx, Hlb, Hmon, Hlal. eauto.
  - split; [vm_compute; reflexivity|exact Hdir].
Defined.

Lemma Start_success_calls_witness :
  ∃ dir_calls,
    Forall (λ e, is_fs_call e = true) dir_calls ∧
    trace (world started_state) =
      (dir_calls ++
       [EvMonitorNew; EvNewUserspaceEngine; EvNetstackCreate; EvNetstackStart;
        EvStoreNew "/home/u/.config/tsnet-app/tailscaled.state";
        EvNewLocalBackend false; EvBackendStart "app" "";
        EvGoPrintAuthURLLoop; EvServeLocalAPI])%list.
Proof.
  destruct (Start_success_calls demo_state started_state)
    as (dir_calls & Hfs & Htr & _);
    [reflexivity | exact demo_state_starts |].
  exists dir_calls. split; [exact Hfs|]. exact Htr.
Defined.

Lemma in_use_invariant_witness :
  in_use listening_state ∧ mu (srv listening_state) = false.
Proof.
  split; [exact listening_state_in_use|].
  destruct (in_use_invariant listening_state listening_state_in_use)
    as (Hmu & _).
  exact Hmu.
Defined.

Lemma Close_after_Start_witness :
  in_use started_state ∧
  ∃ st',
    Server_Close started_state = Ret None st' ∧
    listeners (srv st') = None ∧
    shutdownCtx (srv st') = Some true.
Proof.
  split; [exact started_state_in_use|].
  pose proof (Close_after_Start started_state started_state_in_use
                ltac:(reflexivity) ltac:(reflexivity)) as Hc.
  assert (Hl : range_listeners (listeners (srv started_state)) = [])
    by reflexivity.
  rewrite Hl in Hc. destruct Hc as (st' & E & Hnil & Hctx & _).
  exists st'. split; [exact E|]. split; [exact Hnil|exact Hctx].
Defined.

Lemma Close_before_Start_panics_witness :
  ∃ msg, Server_Close demo_state = Panic msg demo_state.
Proof. apply (Close_before_Start_panics demo_state). reflexivity. Defined.

Lemma Listen_after_Close_witness :
  ∃ p st'',
    Server_Listen "tcp" ":80" (state_of (Server_Close started_state))
      = Ret (Ok p) st'' ∧
    listeners (srv st'') = Some {[ ListenKey "tcp" "" "80" := p ]}.
Proof.
  destruct (Listen_after_Close started_state
              (state_of (Server_Close started_state)) None
              "tcp" ":80" "" "80")
    as (p & st'' & E & Hls & _);
    [ apply in_use_wf, started_state_in_use | reflexivity | reflexivity
    | vm_compute; reflexivity | reflexivity |].
  exists p, st''. split; [exact E|exact Hls].
Defined.

Lemma Listen_then_dispatch_witness :
  ∃ ln,
    lns listening_state !! 0 = Some ln ∧
    forwardTCP 7 80%N (Some 5%Z) true listening_state
      = Ret 5%Z (emitted (EvSend (conn ln) 7) listening_state).
Proof.
  destruct (Listen_then_dispatch demo_state listening_state ":80" 0 80%N)
    as (ln & Hp & Hsend & _);
    [ exact demo_state_wf | reflexivity | vm_compute; reflexivity |].
  exists ln. split; [exact Hp|].
  destruct (Hsend 7 5%Z true) as [E _]; [unfold time_Second; lia|exact E].
Defined.

Lemma listener_Addr_is_what_Listen_got_witness :
  addr_Network (listener_Addr 0) (run_apis [ApiListenerClose 0] listening_state)
    = Ret "tcp" (run_apis [ApiListenerClose 0] listening_state) ∧
  addr_String (listener_Addr 0) (run_apis [ApiListenerClose 0] listening_state)
    = Ret ":80" (run_apis [ApiListenerClose 0] listening_state).
Proof.
  apply (listener_Addr_is_what_Listen_got demo_state listening_state
           "tcp" ":80" 0 [ApiListenerClose 0]).
  - exact demo_state_wf.
  - vm_compute. reflexivity.
Defined.

Lemma Dial_passes_through_witness :
  ∃ r st1,
    Server_Start demo_state = Ret r st1 ∧
    Server_Dial "tcp" "peer:80" (Ok 9) demo_state =
      Ret (match r with
           | Some err => Err err
           | None => Ok 9
           end) st1.
Proof.
  destruct (Dial_passes_through demo_state "tcp" "peer:80" (Ok 9)
              demo_state_in_use) as (r & st1 & E & Ed & _).
  exists r, st1. split; [exact E|exact Ed].
Defined.

Lemma failed_Start_is_final_witness :
  Server_Listen "tcp" ":80" (state_of (Server_Start broken_state))
    = Ret (Err (StartupError (external "os" "executable not found")))
        (state_of (Server_Start broken_state)).
Proof.
  destruct (failed_Start_is_final (state_of (Server_Start broken_state))
              (StartupError (external "os" "executable not found")))
    as (_ & Hl & _); [reflexivity | reflexivity |].
  apply (Hl "tcp" ":80" "" "80"). reflexivity.
Defined.

Lemma dispatch_one_port_per_listener_witness :
  wf listening_state ∧ 80%N = 80%N.
Proof.
  split; [exact listening_state_wf|].
  apply (dispatch_one_port_per_listener listening_state 7 8 7 8 80%N 80%N
           (Some 5%Z) (Some 6%Z) true true 0 listening_state_wf);
    vm_compute; reflexivity.
Defined.

Lemma Close_stops_printAuthURLLoop_witness :
  printAuthURLLoop 1 (state_of (Server_Close started_state))
    = Ret true (state_of (Server_Close started_state)).
Proof.
  apply (Close_stops_printAuthURLLoop started_state 0 started_state_in_use);
    reflexivity.
Defined.

Lemma Start_without_executable_witness :
  ∃ st1,
    Server_Start broken_state
      = Ret (Some (StartupError (external "os" "executable not found"))) st1 ∧
    world st1 = world broken_state.
Proof.
  destruct (Start_without_executable broken_state
              (external "os" "executable not found"))
    as (st1 & E & Hw & _); [reflexivity | reflexivity |].
  exists st1. split; [exact E|exact Hw].
Defined.

Lemma listener_Close_leaves_others_witness :
  ∃ q st',
    Server_Listen "tcp" ":443" listening_state
      = Ret (Ok q) (state_of (Server_Listen "tcp" ":443" listening_state)) ∧
    listener_Close 0 (state_of (Server_Listen "tcp" ":443" listening_state))
      = Ret None st' ∧
    listener_Accept q None st' = Blocked st'.
Proof.
  exists 1.
  destruct (listener_Close_leaves_others
              (state_of (Server_Listen "tcp" ":443" listening_state)) 0 1
              (Listener (ListenKey "tcp" "" "80") ":80" 0)
              (Listener (ListenKey "tcp" "" "443") ":443" 1))
    as (st' & E & _ & _ & _ & Hpark & _);
    [ apply Server_Listen_wf, listening_state_wf
    | vm_compute; reflexivity | vm_compute; reflexivity
    | vm_compute; reflexivity | discriminate |].
  exists st'. split; [vm_compute; reflexivity|]. split; [exact E|exact Hpark].
Defined.

Lemma dispatch_after_listener_Close_witness :
  ∃ st',
    listener_Close 0 listening_state = Ret None st' ∧
    forwardTCP 7 80%N (Some 5%Z) true st'
      = Ret 0%Z (emitted (EvConnClose 7) st').
Proof.
  apply (dispatch_after_listener_Close listening_state 0 ln80 80%N 7
           (Some 5%Z) true listening_state_wf listening_state_ln80);
    [reflexivity | exact listening_state_registered].
Defined.
